(** * Data lineage tracker: a shallow embedding of
    [src/monitoring/data_lineage.py] and the properties of its dependency
    graph engine.

    - The registry [assets] is a Python dictionary whose iteration order is
      observable (diagrams, saved document): an association list with
      distinct keys, in insertion order.
    - The two adjacency maps are finite maps from asset keys to finite sets
      of asset keys.  Python gives no order for iterating a [set]; every loop
      over a set goes through an abstract enumeration [set_iter], and the
      statements hold for each such enumeration.
    - Recursive methods take a recursion bound; the statements say that the
      bound computed from the adjacency map is never reached.
    - Methods that can raise run in a state-and-exception monad, so that
      what was written before an exception stays written.
    - The file at [lineage_file] is the JSON value that [json.dump] writes
      and [json.load] reads; logging is left out. *)

From stdpp Require Import gmap strings list fin_maps fin_sets relations.

Set Warnings "-register-all,-clear-no-such-hyp".

(** ** Python values used by the tracker *)

(** Exceptions raised by the modelled code.  [OutsideModel] is not a Python
    exception: the embedding is typed after the dataclass annotations, and a
    persisted document holding a value of another type in a field (which
    Python would store unchecked) has no counterpart in it. *)
Inductive exn : Type :=
  | KeyError (key : string)
  | TypeError
  | AttributeError
  | ValueError (msg : string)
  | OutsideModel.

(** Iteration order of a Python [set]: some enumeration of its members,
    each exactly once. *)
Class SetIter := {
  set_iter : gset string → list string;
  set_iter_perm : ∀ X, set_iter X ≡ₚ elements X
}.

(** One admissible order, used to run the model on concrete inputs. *)
Definition elements_order : SetIter :=
  {| set_iter := elements; set_iter_perm := λ X, reflexivity (elements X) |}.

(** [d[k] = v] on an insertion-ordered dictionary: an existing key keeps its
    position, a new key goes last. *)
Fixpoint dict_set {V} (k : string) (v : V) (d : list (string * V)) : list (string * V) :=
  match d with
  | [] => [(k, v)]
  | (k', v') :: d' =>
      if decide (k = k') then (k, v) :: d' else (k', v') :: dict_set k v d'
  end.

Fixpoint dict_get {V} (k : string) (d : list (string * V)) : option V :=
  match d with
  | [] => None
  | (k', v') :: d' => if decide (k = k') then Some v' else dict_get k d'
  end.

(** ** Data model *)

(** [@dataclass DataAsset]; [tags] is the value after [__post_init__]
    (never [None]). *)
Record DataAsset := mkDataAsset {
  name : string;
  type : string;
  schema : string;
  description : option string;
  created_date : option string;
  last_modified : option string;
  owner : option string;
  tags : list string
}.

(** [@dataclass DataTransformation]; its [created_date] field is
    [created_date_t] here, the name being taken by [DataAsset]. *)
Record DataTransformation := mkDataTransformation {
  source_assets : list string;
  target_asset : string;
  transformation_type : string;
  transformation_logic : string;
  created_date_t : string;
  created_by : string
}.

(** The attributes of [DataLineageTracker] that the methods read and write.
    The content of the file at [lineage_file] is passed to [load_lineage]
    and returned by [save_lineage]. *)
Record DataLineageTracker := mkTracker {
  assets : list (string * DataAsset);
  transformations : list DataTransformation;
  dependencies : gmap string (gset string);
  downstream : gmap string (gset string)
}.

(** The attributes as [__init__] sets them before it calls [load_lineage]. *)
Definition empty_tracker : DataLineageTracker :=
  {| assets := []; transformations := []; dependencies := ∅; downstream := ∅ |}.

(** ** Registration *)

(** [if key not in graph: graph[key] = set()] *)
Definition ensure_key (key : string) (graph : gmap string (gset string))
  : gmap string (gset string) :=
  match graph !! key with
  | Some _ => graph
  | None => <[key := ∅]> graph
  end.

(** [graph[key].add(x)] where [key] is known to be present. *)
Definition add_member (key x : string) (graph : gmap string (gset string))
  : gmap string (gset string) :=
  alter (λ members, members ∪ {[x]}) key graph.

Definition asset_key_of (asset : DataAsset) : string :=
  schema asset +:+ "." +:+ name asset.

Definition add_asset (asset : DataAsset) (self : DataLineageTracker) : DataLineageTracker :=
  let asset_key := asset_key_of asset in
  {| assets := dict_set asset_key asset (assets self);
     transformations := transformations self;
     dependencies := ensure_key asset_key (dependencies self);
     downstream := ensure_key asset_key (downstream self) |}.

(** The body of [for source in transformation.source_assets] in
    [add_transformation], on the pair of adjacency maps. *)
Definition add_edge (target : string)
    (graphs : gmap string (gset string) * gmap string (gset string)) (source : string)
  : gmap string (gset string) * gmap string (gset string) :=
  let deps := add_member target source graphs.1 in
  let down := ensure_key source graphs.2 in
  (deps, add_member source target down).

Definition add_transformation (transformation : DataTransformation)
    (self : DataLineageTracker) : DataLineageTracker :=
  let log := transformations self ++ [transformation] in
  let target := target_asset transformation in
  let deps := ensure_key target (dependencies self) in
  let graphs := foldl (add_edge target) (deps, downstream self)
                  (source_assets transformation) in
  {| assets := assets self;
     transformations := log;
     dependencies := graphs.1;
     downstream := graphs.2 |}.

(** Calls of the producer interface, and a run of a sequence of them. *)
Inductive call : Type :=
  | AddAsset (asset : DataAsset)
  | AddTransformation (transformation : DataTransformation).

Definition do_call (self : DataLineageTracker) (c : call) : DataLineageTracker :=
  match c with
  | AddAsset asset => add_asset asset self
  | AddTransformation transformation => add_transformation transformation self
  end.

Definition do_calls (self : DataLineageTracker) (cs : list call) : DataLineageTracker :=
  foldl do_call self cs.

(** [member graph key x]: [key] is a key of [graph] and [x in graph[key]]. *)
Definition member (graph : gmap string (gset string)) (key x : string) : Prop :=
  ∃ members, graph !! key = Some members ∧ x ∈ members.

(** The edges a transformation stands for are in both adjacency maps. *)
Definition has_edges (transformation : DataTransformation) (self : DataLineageTracker) : Prop :=
  ∀ s, s ∈ source_assets transformation →
    member (dependencies self) (target_asset transformation) s ∧
    member (downstream self) s (target_asset transformation).

(** ** Graph queries *)

(** [graph.get(key, set())] *)
Definition get_or_empty (graph : gmap string (gset string)) (key : string) : gset string :=
  default ∅ (graph !! key).

Section Queries.
Context {order : SetIter}.

(** The common body of [get_upstream_dependencies] and
    [get_downstream_impact], which differ only in the adjacency map they
    read.  Python's recursion is bounded here by [fuel]; [None] means the
    bound was reached, [Some] is the returned set.  Each recursive call gets
    its own copy of [visited]. *)
Fixpoint closure (fuel : nat) (graph : gmap string (gset string))
    (asset : string) (visited : gset string) : option (gset string) :=
  match fuel with
  | 0 => None
  | S fuel' =>
      if decide (asset ∈ visited) then Some ∅
      else
        let visited := visited ∪ {[asset]} in
        let direct := get_or_empty graph asset in
        foldl (λ acc dep,
                 found ← acc;
                 more ← closure fuel' graph dep visited;
                 Some (found ∪ more))
              (Some (∅ ∪ direct)) (set_iter direct)
  end.

(** A recursion bound that the traversal of [graph] never reaches: every
    call below the first adds a key of [graph] to [visited]. *)
Definition depth_bound (graph : gmap string (gset string)) : nat :=
  S (size (dom graph)).

Definition get_upstream_dependencies (self : DataLineageTracker) (asset : string)
  : option (gset string) :=
  closure (depth_bound (dependencies self)) (dependencies self) asset ∅.

Definition get_downstream_impact (self : DataLineageTracker) (asset : string)
  : option (gset string) :=
  closure (depth_bound (downstream self)) (downstream self) asset ∅.

(** Python truthiness of an [Optional[List[str]]]. *)
Definition truthy (result : option (list string)) : bool :=
  match result with
  | Some (_ :: _) => true
  | _ => false
  end.

(** [for x in xs: result = f(x); if result: return result] followed by
    [return None].  The outer [option] is the recursion bound. *)
Fixpoint first_truthy (f : string → option (option (list string))) (xs : list string)
  : option (option (list string)) :=
  match xs with
  | [] => Some None
  | x :: xs' =>
      match f x with
      | None => None
      | Some result => if truthy result then Some result else first_truthy f xs'
      end
  end.

(** The inner function of [get_lineage_path]; [graph] is [self.downstream]. *)
Fixpoint find_path (fuel : nat) (graph : gmap string (gset string))
    (current target : string) (path : list string) (visited : gset string)
  : option (option (list string)) :=
  match fuel with
  | 0 => None
  | S fuel' =>
      if decide (current = target) then Some (Some (path ++ [current]))
      else if decide (current ∈ visited) then Some None
      else
        let visited := visited ∪ {[current]} in
        first_truthy
          (λ downstream_asset,
             find_path fuel' graph downstream_asset target (path ++ [current]) visited)
          (set_iter (get_or_empty graph current))
  end.

(** [x or []] *)
Definition or_empty (result : option (list string)) : list string :=
  if truthy result then default [] result else [].

Definition get_lineage_path (self : DataLineageTracker) (source target : string)
  : option (list string) :=
  or_empty <$> find_path (depth_bound (downstream self)) (downstream self) source target [] ∅.

(** *** Impact analysis *)

(** The dictionaries appended to ['affected_transformations']; the key
    ['type'] is [type_t] here. *)
Record affected_transformation := mkAffected {
  transformation : string;
  type_t : string;
  affected_source : string
}.

(** The dictionary returned by [analyze_impact]. *)
Record impact_analysis := mkImpact {
  changed_assets : list string;
  affected_assets : list string;
  affected_transformations : list affected_transformation;
  risk_level : string;
  recommendations : list string
}.

(** [for transformation in self.transformations: if asset in ...: append] *)
Definition scan_transformations (asset : string) (log : list DataTransformation)
    (found : list affected_transformation) : list affected_transformation :=
  foldl (λ found transformation,
           if bool_decide (asset ∈ source_assets transformation)
           then found ++ [ {| transformation := target_asset transformation;
                              type_t := transformation_type transformation;
                              affected_source := asset |} ]
           else found)
        found log.

(** The loop [for asset in changed_assets] on the pair
    (['affected_assets'], ['affected_transformations']). *)
Definition impact_step (self : DataLineageTracker)
    (acc : option (gset string * list affected_transformation)) (asset : string)
  : option (gset string * list affected_transformation) :=
  '(affected, found) ← acc;
  downstream ← get_downstream_impact self asset;
  Some (affected ∪ downstream, scan_transformations asset (transformations self) found).

Definition analyze_impact (self : DataLineageTracker) (changed : list string)
  : option impact_analysis :=
  '(affected, found) ← foldl (impact_step self) (Some (∅, [])) changed;
  let affected_count := size affected in
  let transformation_count := length found in
  let '(risk, advice) :=
    if (10 <? affected_count) || (5 <? transformation_count) then
      ("HIGH", ([] ++ ["Consider implementing changes in stages"])
                 ++ ["Run comprehensive testing before deployment"])
    else if (5 <? affected_count) || (2 <? transformation_count) then
      ("MEDIUM", [] ++ ["Test affected downstream assets"])
    else ("LOW", [])
  in
  Some {| changed_assets := changed;
          affected_assets := set_iter affected;
          affected_transformations := found;
          risk_level := risk;
          recommendations := advice |}.

End Queries.

(** ** Diagrams *)

Definition newline : string := String (Ascii.ascii_of_nat 10) EmptyString.
Definition dquote : string := String (Ascii.ascii_of_nat 34) EmptyString.
Definition dot_char : Ascii.ascii := Ascii.ascii_of_nat 46.
Definition dash_char : Ascii.ascii := Ascii.ascii_of_nat 45.

(** [s.replace(old, new)] for a pattern [old] of one character, as at every
    call site. *)
Fixpoint str_replace (old : Ascii.ascii) (new : string) (s : string) : string :=
  match s with
  | EmptyString => EmptyString
  | String c s' =>
      if decide (c = old) then new +:+ str_replace old new s'
      else String c (str_replace old new s')
  end.

(** [key.replace('.', '_').replace('-', '_')] *)
Definition node_id_of (key : string) : string :=
  str_replace dash_char "_" (str_replace dot_char "_" key).

(** [for source in transformation.source_assets: lines.append(edge)] over
    the whole transformation log; [arrow] and [stop] are the dialect's
    tokens. *)
Definition edge_lines (arrow stop : string) (log : list DataTransformation)
    (lines : list string) : list string :=
  foldl (λ lines transformation,
           let target_id := node_id_of (target_asset transformation) in
           foldl (λ lines source,
                    let source_id := node_id_of source in
                    lines ++ ["    " +:+ source_id +:+ arrow +:+ target_id +:+ stop])
                 lines (source_assets transformation))
        lines log.

Definition _generate_mermaid_diagram (self : DataLineageTracker) : string :=
  let lines := ["graph TD"] in
  let lines :=
    foldl (λ lines '(asset_key, asset),
             let node_id := node_id_of asset_key in
             let node_label := name asset +:+ "\n(" +:+ type asset +:+ ")" in
             let node := "    " +:+ node_id +:+ "[" +:+ dquote +:+ node_label +:+ dquote +:+ "]" in
             if decide (schema asset = "bronze") then lines ++ [node +:+ ":::bronze"]
             else if decide (schema asset = "silver") then lines ++ [node +:+ ":::silver"]
             else if decide (schema asset = "gold") then lines ++ [node +:+ ":::gold"]
             else lines ++ [node])
          lines (assets self) in
  let lines := edge_lines " --> " "" (transformations self) lines in
  let lines := lines ++
    [ "";
      "    classDef bronze fill:#cd7f32,stroke:#8B4513,stroke-width:2px,color:#fff";
      "    classDef silver fill:#c0c0c0,stroke:#808080,stroke-width:2px,color:#000";
      "    classDef gold fill:#ffd700,stroke:#daa520,stroke-width:2px,color:#000" ] in
  String.concat newline lines.

Definition _generate_dot_diagram (self : DataLineageTracker) : string :=
  let lines := ["digraph DataLineage {"; "    rankdir=LR;"; "    node [shape=box];"] in
  let lines :=
    foldl (λ lines '(asset_key, asset),
             let node_id := node_id_of asset_key in
             let color :=
               if decide (schema asset = "bronze") then "#CD7F32"
               else if decide (schema asset = "silver") then "#C0C0C0"
               else if decide (schema asset = "gold") then "#FFD700"
               else "#CCCCCC" in
             lines ++ ["    " +:+ node_id +:+ " [label=" +:+ dquote +:+ name asset +:+ "\n("
                         +:+ type asset +:+ ")" +:+ dquote +:+ ", fillcolor=" +:+ dquote
                         +:+ color +:+ dquote +:+ ", style=filled];"])
          lines (assets self) in
  let lines := edge_lines " -> " ";" (transformations self) lines in
  let lines := lines ++ ["}"] in
  String.concat newline lines.

(** What a call does: return a value or raise. *)
Inductive outcome (A : Type) : Type :=
  | Returned (a : A)
  | Raised (e : exn).
Arguments Returned {A} a.
Arguments Raised {A} e.

Definition generate_lineage_diagram (self : DataLineageTracker) (output_format : string)
  : outcome string :=
  if decide (output_format = "mermaid") then Returned (_generate_mermaid_diagram self)
  else if decide (output_format = "dot") then Returned (_generate_dot_diagram self)
  else Raised (ValueError ("Unsupported output format: " +:+ output_format)).

(** ** Methods that raise: state and exceptions *)

(** A method body runs on the tracker's attributes; what it has written
    before raising stays written. *)
Definition method (A : Type) : Type :=
  DataLineageTracker → outcome A * DataLineageTracker.

Definition ret {A} (a : A) : method A := λ self, (Returned a, self).
Definition raise {A} (e : exn) : method A := λ self, (Raised e, self).
Definition bind {A B} (m : method A) (k : A → method B) : method B :=
  λ self,
    match m self with
    | (Returned a, self') => k a self'
    | (Raised e, self') => (Raised e, self')
    end.
Definition get_self : method DataLineageTracker := λ self, (Returned self, self).
Definition update (f : DataLineageTracker → DataLineageTracker) : method unit :=
  λ self, (Returned tt, f self).
Definition of_outcome {A} (o : outcome A) : method A := λ self, (o, self).

(** [try: body except Exception as e: handler(e)] *)
Definition try_except {A} (body : method A) (handler : exn → method A) : method A :=
  λ self,
    match body self with
    | (Returned a, self') => (Returned a, self')
    | (Raised e, self') => handler e self'
    end.

Declare Scope method_scope.
Delimit Scope method_scope with method.
Notation "x <- m ;; k" := (bind m (λ x, k))
  (at level 100, m at next level, right associativity) : method_scope.
Notation "m ;; k" := (bind m (λ _, k))
  (at level 100, right associativity) : method_scope.

(** [for x in xs: body(x)] *)
Fixpoint for_each {A} (xs : list A) (body : A → method unit) : method unit :=
  match xs with
  | [] => ret tt
  | x :: xs' => (body x ;; for_each xs' body)%method
  end.

Definition set_dependencies (graph : gmap string (gset string))
    (self : DataLineageTracker) : DataLineageTracker :=
  {| assets := assets self; transformations := transformations self;
     dependencies := graph; downstream := downstream self |}.

Definition set_downstream (graph : gmap string (gset string))
    (self : DataLineageTracker) : DataLineageTracker :=
  {| assets := assets self; transformations := transformations self;
     dependencies := dependencies self; downstream := graph |}.

(** [self.dependencies[key].add(x)]: the subscript raises [KeyError] on a
    missing key. *)
Definition dependencies_add (key x : string) : method unit :=
  (self <- get_self ;;
   match dependencies self !! key with
   | Some members => update (set_dependencies (<[key := members ∪ {[x]}]> (dependencies self)))
   | None => raise (KeyError key)
   end)%method.

(** [self.downstream[key].add(x)] *)
Definition downstream_add (key x : string) : method unit :=
  (self <- get_self ;;
   match downstream self !! key with
   | Some members => update (set_downstream (<[key := members ∪ {[x]}]> (downstream self)))
   | None => raise (KeyError key)
   end)%method.

Definition _rebuild_dependency_graphs : method unit :=
  (update (set_dependencies ∅) ;;
   update (set_downstream ∅) ;;
   self <- get_self ;;
   for_each (assets self).*1
     (λ asset_key,
        update (λ self, set_dependencies (<[asset_key := ∅]> (dependencies self)) self) ;;
        update (λ self, set_downstream (<[asset_key := ∅]> (downstream self)) self)) ;;
   self <- get_self ;;
   for_each (transformations self)
     (λ transformation,
        let target := target_asset transformation in
        for_each (source_assets transformation)
          (λ source,
             dependencies_add target source ;;
             downstream_add source target)))%method.

(** ** Persistence *)

(** The values [json.load] returns and [json.dump] accepts.  An object is a
    Python [dict]: its keys are distinct.  A number is kept as its literal. *)
Inductive json : Type :=
  | JNull
  | JBool (b : bool)
  | JNumber (literal : string)
  | JStr (s : string)
  | JArr (items : list json)
  | JObj (members : list (string * json)).

(** What is at the path [lineage_file]: nothing, text that [json.load]
    rejects, or a document. *)
Inductive file_content : Type :=
  | Absent
  | Malformed
  | Document (doc : json).

Definition json_of_option (o : option string) : json :=
  match o with
  | Some s => JStr s
  | None => JNull
  end.

(** [asdict(asset)] *)
Definition asdict_asset (asset : DataAsset) : json :=
  JObj [ ("name", JStr (name asset));
         ("type", JStr (type asset));
         ("schema", JStr (schema asset));
         ("description", json_of_option (description asset));
         ("created_date", json_of_option (created_date asset));
         ("last_modified", json_of_option (last_modified asset));
         ("owner", json_of_option (owner asset));
         ("tags", JArr (JStr <$> tags asset)) ].

(** [asdict(transformation)] *)
Definition asdict_transformation (transformation : DataTransformation) : json :=
  JObj [ ("source_assets", JArr (JStr <$> source_assets transformation));
         ("target_asset", JStr (target_asset transformation));
         ("transformation_type", JStr (transformation_type transformation));
         ("transformation_logic", JStr (transformation_logic transformation));
         ("created_date", JStr (created_date_t transformation));
         ("created_by", JStr (created_by transformation)) ].

(** The document [save_lineage] writes; [now] is
    [datetime.now().isoformat()]. *)
Definition save_lineage (now : string) (self : DataLineageTracker) : json :=
  JObj [ ("assets", JObj (prod_map id asdict_asset <$> assets self));
         ("transformations", JArr (asdict_transformation <$> transformations self));
         ("last_updated", JStr now) ].

(** *** Reading a document back *)

(** [value.get(key, default)]: only a [dict] has [get]. *)
Definition json_get (value : json) (key : string) (fallback : json) : outcome json :=
  match value with
  | JObj members => Returned (default fallback (dict_get key members))
  | _ => Raised AttributeError
  end.

(** [value.items()]: only a [dict] has [items]. *)
Definition json_items (value : json) : outcome (list (string * json)) :=
  match value with
  | JObj members => Returned members
  | _ => Raised AttributeError
  end.

(** [iter(value)]: a list yields its items, a dict its keys, a string its
    characters; the other values are not iterable. *)
Definition json_iter (value : json) : outcome (list json) :=
  match value with
  | JArr items => Returned items
  | JObj members => Returned (JStr <$> members.*1)
  | JStr s => Returned ((λ c, JStr (String c EmptyString)) <$> String.list_ascii_of_string s)
  | _ => Raised TypeError
  end.

(** A field annotated [str]. *)
Definition field_str (value : option json) : outcome string :=
  match value with
  | None => Raised TypeError
  | Some (JStr s) => Returned s
  | Some _ => Raised OutsideModel
  end.

(** A field annotated [Optional[str] = None]. *)
Definition field_optional_str (value : option json) : outcome (option string) :=
  match value with
  | None | Some JNull => Returned None
  | Some (JStr s) => Returned (Some s)
  | Some _ => Raised OutsideModel
  end.

Fixpoint strings_of (items : list json) : outcome (list string) :=
  match items with
  | [] => Returned []
  | JStr s :: items' =>
      match strings_of items' with
      | Returned l => Returned (s :: l)
      | Raised e => Raised e
      end
  | _ :: _ => Raised OutsideModel
  end.

(** A field annotated [List[str]]. *)
Definition field_str_list (value : option json) : outcome (list string) :=
  match value with
  | None => Raised TypeError
  | Some (JArr items) => strings_of items
  | Some _ => Raised OutsideModel
  end.

(** The [tags: List[str] = None] field with [__post_init__]. *)
Definition field_tags (value : option json) : outcome (list string) :=
  match value with
  | None | Some JNull => Returned []
  | Some (JArr items) => strings_of items
  | Some _ => Raised OutsideModel
  end.

Definition outcome_bind {A B} (o : outcome A) (k : A → outcome B) : outcome B :=
  match o with
  | Returned a => k a
  | Raised e => Raised e
  end.

Declare Scope outcome_scope.
Delimit Scope outcome_scope with outcome.
Notation "x <- o ;; k" := (outcome_bind o (λ x, k))
  (at level 100, o at next level, right associativity) : outcome_scope.

Definition asset_fields : list string :=
  ["name"; "type"; "schema"; "description"; "created_date"; "last_modified"; "owner"; "tags"].

Definition transformation_fields : list string :=
  ["source_assets"; "target_asset"; "transformation_type"; "transformation_logic";
   "created_date"; "created_by"].

(** Unpacking [data] into the keyword arguments of a dataclass constructor:
    [data] must be a mapping whose keys are all fields of the dataclass,
    else [TypeError]. *)
Definition keyword_arguments (fields : list string) (data : json)
  : outcome (list (string * json)) :=
  match data with
  | JObj members =>
      if forallb (λ key, bool_decide (key ∈ fields)) members.*1
      then Returned members else Raised TypeError
  | _ => Raised TypeError
  end.

(** [DataAsset] called with the keyword arguments [asset_data]; a missing
    field without default is a [TypeError]. *)
Definition DataAsset_init (asset_data : json) : outcome DataAsset :=
  (kw <- keyword_arguments asset_fields asset_data ;;
   if forallb (λ key, bool_decide (key ∈ kw.*1)) ["name"; "type"; "schema"] then
     name <- field_str (dict_get "name" kw) ;;
     type <- field_str (dict_get "type" kw) ;;
     schema <- field_str (dict_get "schema" kw) ;;
     description <- field_optional_str (dict_get "description" kw) ;;
     created_date <- field_optional_str (dict_get "created_date" kw) ;;
     last_modified <- field_optional_str (dict_get "last_modified" kw) ;;
     owner <- field_optional_str (dict_get "owner" kw) ;;
     tags <- field_tags (dict_get "tags" kw) ;;
     Returned (mkDataAsset name type schema description created_date last_modified owner tags)
   else Raised TypeError)%outcome.

(** [DataTransformation] called with the keyword arguments
    [transform_data]; no field has a default. *)
Definition DataTransformation_init (transform_data : json) : outcome DataTransformation :=
  (kw <- keyword_arguments transformation_fields transform_data ;;
   if forallb (λ key, bool_decide (key ∈ kw.*1)) transformation_fields then
     source_assets <- field_str_list (dict_get "source_assets" kw) ;;
     target_asset <- field_str (dict_get "target_asset" kw) ;;
     transformation_type <- field_str (dict_get "transformation_type" kw) ;;
     transformation_logic <- field_str (dict_get "transformation_logic" kw) ;;
     created_date <- field_str (dict_get "created_date" kw) ;;
     created_by <- field_str (dict_get "created_by" kw) ;;
     Returned (mkDataTransformation source_assets target_asset transformation_type
                 transformation_logic created_date created_by)
   else Raised TypeError)%outcome.

Definition set_assets (d : list (string * DataAsset)) (self : DataLineageTracker)
  : DataLineageTracker :=
  {| assets := d; transformations := transformations self;
     dependencies := dependencies self; downstream := downstream self |}.

Definition set_transformations (log : list DataTransformation) (self : DataLineageTracker)
  : DataLineageTracker :=
  {| assets := assets self; transformations := log;
     dependencies := dependencies self; downstream := downstream self |}.

(** The body of the [try] block of [load_lineage]. *)
Definition load_document (lineage_data : json) : method unit :=
  (assets_json <- of_outcome (json_get lineage_data "assets" (JObj [])) ;;
   items <- of_outcome (json_items assets_json) ;;
   for_each items
     (λ '(asset_key, asset_data),
        asset <- of_outcome (DataAsset_init asset_data) ;;
        update (λ self, set_assets (dict_set asset_key asset (assets self)) self)) ;;
   transforms_json <- of_outcome (json_get lineage_data "transformations" (JArr [])) ;;
   transforms <- of_outcome (json_iter transforms_json) ;;
   for_each transforms
     (λ transform_data,
        transformation <- of_outcome (DataTransformation_init transform_data) ;;
        update (λ self, set_transformations (transformations self ++ [transformation]) self)) ;;
   _rebuild_dependency_graphs)%method.

(** [load_lineage]: an absent file is not read; any exception of the [try]
    block, [json.load]'s included, is logged and swallowed. *)
Definition load_lineage (file : file_content) : method unit :=
  match file with
  | Absent => ret tt
  | Malformed => ret tt
  | Document lineage_data => try_except (load_document lineage_data) (λ _, ret tt)
  end.

(** [DataLineageTracker(lineage_file)]: the attributes after [__init__]. *)
Definition new_tracker (file : file_content) : DataLineageTracker :=
  (load_lineage file empty_tracker).2.

(** ** Vocabulary of the statements *)

(** [edge graph u v]: [v] is in [graph[u]]. *)
Definition edge (graph : gmap string (gset string)) (u v : string) : Prop :=
  v ∈ get_or_empty graph u.

(** Every asset key that occurs in an adjacency map, as a key or inside an
    entry. *)
Definition graph_keys (graph : gmap string (gset string)) : gset string :=
  dom graph ∪ ⋃ (map_to_list graph).*2.

(** [walk graph visited a x]: [x] is reached from [a] along at least one
    edge of [graph], and no node of the walk before [x] is in [visited]. *)
Inductive walk (graph : gmap string (gset string)) (visited : gset string)
  : string → string → Prop :=
  | walk_last a x : a ∉ visited → edge graph a x → walk graph visited a x
  | walk_next a d x :
      a ∉ visited → edge graph a d → walk graph visited d x → walk graph visited a x.

(** [route graph visited a t]: [t] is [a], or is reached from [a] along
    edges of [graph] through nodes outside [visited]. *)
Inductive route (graph : gmap string (gset string)) (visited : gset string)
  : string → string → Prop :=
  | route_here t : route graph visited t t
  | route_next a d t :
      a ∉ visited → edge graph a d → route graph visited d t → route graph visited a t.

(** [chain graph p]: every two consecutive entries of [p] are an edge. *)
Fixpoint chain (graph : gmap string (gset string)) (p : list string) : Prop :=
  match p with
  | u :: ((v :: _) as p') => edge graph u v ∧ chain graph p'
  | _ => True
  end.

(** A lineage path from [source] to [target]. *)
Definition lineage_path (graph : gmap string (gset string))
    (source target : string) (p : list string) : Prop :=
  head p = Some source ∧ last p = Some target ∧ chain graph p.

(** Every logged transformation has its endpoints registered as assets.
    (A transformation without sources has no endpoint that
    [_rebuild_dependency_graphs] looks up, but [add_transformation] still
    makes its target a key.) *)
Definition endpoints_registered (self : DataLineageTracker) : Prop :=
  ∀ transformation, transformation ∈ transformations self →
    target_asset transformation ∈ (assets self).*1 ∧
    ∀ s, s ∈ source_assets transformation → s ∈ (assets self).*1.

(** What [add_transformation] does to the pair of adjacency maps. *)
Definition transformation_edges (transformation : DataTransformation)
    (graphs : gmap string (gset string) * gmap string (gset string))
  : gmap string (gset string) * gmap string (gset string) :=
  foldl (add_edge (target_asset transformation))
    (ensure_key (target_asset transformation) graphs.1, graphs.2)
    (source_assets transformation).

(** The sources of the logged transformations into [k], and the targets of
    those that have [k] as a source. *)
Definition sources_into (log : list DataTransformation) (k : string) : gset string :=
  ⋃ ((λ t, if decide (target_asset t = k) then list_to_set (source_assets t) else ∅) <$> log).

Definition targets_from (log : list DataTransformation) (k : string) : gset string :=
  ⋃ ((λ t, if decide (k ∈ source_assets t) then {[target_asset t]} else ∅) <$> log).

Definition all_targets (log : list DataTransformation) : gset string :=
  list_to_set (target_asset <$> log).

Definition all_sources (log : list DataTransformation) : gset string :=
  ⋃ ((λ t, list_to_set (source_assets t)) <$> log).

(** The adjacency maps as a function of the registered keys and the log:
    an entry for every registered key, every target and every source, each
    holding the edges of the log. *)
Definition graphs_of (keys : gset string) (log : list DataTransformation)
    (graphs : gmap string (gset string) * gmap string (gset string)) : Prop :=
  (∀ k, graphs.1 !! k =
          if decide (k ∈ keys ∪ all_targets log) then Some (sources_into log k) else None) ∧
  (∀ k, graphs.2 !! k =
          if decide (k ∈ keys ∪ all_sources log) then Some (targets_from log k) else None).

(** The maps of a tracker are the ones its registry and log determine; so
    it is for every tracker built by [add_asset] and [add_transformation]. *)
Definition consistent (self : DataLineageTracker) : Prop :=
  graphs_of (list_to_set (assets self).*1) (transformations self)
    (dependencies self, downstream self).

(** [for key in keys: graph[key] = set()] *)
Definition init_entries (keys : list string) (graph : gmap string (gset string))
  : gmap string (gset string) :=
  foldl (λ graph key, <[key := ∅]> graph) graph keys.

(** Methods that leave the registry and the log as they are, raising or
    not. *)
Definition keeps_registry {A} (m : method A) : Prop :=
  ∀ self, assets (m self).2 = assets self ∧
          transformations (m self).2 = transformations self.

(** The record that [analyze_impact] appends for transformation [t] and
    changed source [s]. *)
Definition record_of (t : DataTransformation) (s : string) : affected_transformation :=
  {| transformation := target_asset t;
     type_t := transformation_type t;
     affected_source := s |}.

(** One record per pair of a logged transformation and a member of both its
    source list and [changed], in the words of the specification. *)
Definition records_per_pair (log : list DataTransformation) (changed : list string)
  : list affected_transformation :=
  t ← log;
  s ← elements ((list_to_set changed : gset string) ∩ list_to_set (source_assets t));
  [record_of t s].

(** One record per pair of a position of [changed] and a logged
    transformation whose source list holds the entry at that position. *)
Definition records_per_position (log : list DataTransformation) (changed : list string)
  : list affected_transformation :=
  s ← changed;
  t ← filter (λ t, s ∈ source_assets t) log;
  [record_of t s].

(** ** States used as examples *)

(** Assets [bronze.t1] and [silver.t1] and the transformation from the
    first to the second. *)
Definition scenario_asset (layer : string) : DataAsset :=
  mkDataAsset "t1" "table" layer None None None None [].

Definition scenario_transformation : DataTransformation :=
  mkDataTransformation ["bronze.t1"] "silver.t1" "etl" "" "" "".

Definition scenario_tracker : DataLineageTracker :=
  do_calls empty_tracker
    [ AddAsset (scenario_asset "bronze");
      AddAsset (scenario_asset "silver");
      AddTransformation scenario_transformation ].

(** A transformation between two keys, and the two-node cycle [A -> B],
    [B -> A] with no asset registered. *)
Definition link (source target : string) : DataTransformation :=
  mkDataTransformation [source] target "etl" "" "" "".

Definition cyclic_tracker : DataLineageTracker :=
  do_calls empty_tracker [AddTransformation (link "A" "B"); AddTransformation (link "B" "A")].

(** One transformation between unregistered keys. *)
Definition unregistered_tracker : DataLineageTracker :=
  add_transformation (link "a" "b") empty_tracker.

(** ** Seeding the warehouse lineage *)

Definition bronze_tables : list string :=
  ["crm_cust_info"; "crm_prd_info"; "crm_sales_details";
   "erp_cust_az12"; "erp_loc_a101"; "erp_px_cat_g1v2"].

Definition silver_tables : list string :=
  ["crm_cust_info"; "crm_prd_info"; "crm_sales_details";
   "erp_cust_az12"; "erp_loc_a101"; "erp_px_cat_g1v2"].

Definition gold_objects : list (string * string * string) :=
  [ ("dim_customers", "view", "Customer dimension with demographics");
    ("dim_products", "view", "Product dimension with categories");
    ("fact_sales", "view", "Sales fact table with metrics") ].

Definition silver_transforms : list (string * string * string) :=
  [ ("bronze.crm_cust_info", "silver.crm_cust_info", "Data cleansing and standardization");
    ("bronze.crm_prd_info", "silver.crm_prd_info", "Product data transformation");
    ("bronze.crm_sales_details", "silver.crm_sales_details",
     "Sales data validation and cleansing");
    ("bronze.erp_cust_az12", "silver.erp_cust_az12", "Customer demographic cleansing");
    ("bronze.erp_loc_a101", "silver.erp_loc_a101", "Location data standardization");
    ("bronze.erp_px_cat_g1v2", "silver.erp_px_cat_g1v2", "Category data transformation") ].

(** [initialize_warehouse_lineage]; [clock i] is what the [i]-th evaluation
    of [datetime.now().isoformat()] during the call returns (one per asset
    and per transformation, in program order). *)
Definition initialize_warehouse_lineage (clock : nat → string) (self : DataLineageTracker)
  : DataLineageTracker :=
  let self :=
    foldl (λ self '(i, table),
             add_asset (mkDataAsset table "table" "bronze"
                          (Some "Raw data from source system") (Some (clock i)) None
                          (Some "ETL Pipeline") ["raw"; "bronze"; "source"]) self)
          self (zip (seq 0 6) bronze_tables) in
  let self :=
    foldl (λ self '(i, table),
             add_asset (mkDataAsset table "table" "silver"
                          (Some "Cleansed and standardized data") (Some (clock i)) None
                          (Some "ETL Pipeline") ["cleansed"; "silver"; "standardized"]) self)
          self (zip (seq 6 6) silver_tables) in
  let self :=
    foldl (λ self '(i, (name, obj_type, description)),
             add_asset (mkDataAsset name obj_type "gold"
                          (Some description) (Some (clock i)) None
                          (Some "Analytics Team") ["analytics"; "gold"; "star-schema"]) self)
          self (zip (seq 12 3) gold_objects) in
  let self :=
    foldl (λ self '(i, (source, target, logic)),
             add_transformation
               (mkDataTransformation [source] target "etl" logic (clock i)
                  "silver.load_silver") self)
          self (zip (seq 15 6) silver_transforms) in
  let self :=
    add_transformation
      (mkDataTransformation
         ["silver.crm_cust_info"; "silver.erp_cust_az12"; "silver.erp_loc_a101"]
         "gold.dim_customers" "view" "Customer dimension combining CRM and ERP data"
         (clock 21) "gold.dim_customers view") self in
  let self :=
    add_transformation
      (mkDataTransformation ["silver.crm_prd_info"; "silver.erp_px_cat_g1v2"]
         "gold.dim_products" "view" "Product dimension with category information"
         (clock 22) "gold.dim_products view") self in
  add_transformation
    (mkDataTransformation
       ["silver.crm_sales_details"; "gold.dim_customers"; "gold.dim_products"]
       "gold.fact_sales" "view" "Sales fact table with dimension keys"
       (clock 23) "gold.fact_sales view") self.

(** The tracker of [main] after its first two statements, on the lineage
    file it finds: construction (which loads the file) and seeding. *)
Definition main_tracker (clock : nat → string) (file : file_content) : DataLineageTracker :=
  initialize_warehouse_lineage clock (new_tracker file).

(** The lineage file after the third statement of [main],
    [tracker.save_lineage()]; its timestamp is the next reading of the
    clock. *)
Definition main_saved (clock : nat → string) (file : file_content) : file_content :=
  Document (save_lineage (clock 24) (main_tracker clock file)).

(** The argument of the impact analysis that [main] prints. *)
Definition main_changed : list string := ["bronze.crm_cust_info"].

(** The lineage file after [n] runs of [main], none being there before the
    first; [clocks k] is the clock of run [k]. *)
Fixpoint file_after_runs (clocks : nat → nat → string) (n : nat) : file_content :=
  match n with
  | 0 => Absent
  | S n' => main_saved (clocks n') (file_after_runs clocks n')
  end.

(** ** Vocabulary of the further statements *)

(** The calls that [initialize_warehouse_lineage] makes, in order. *)
Definition seed_calls (clock : nat → string) : list call :=
  ((λ '(i, table),
      AddAsset (mkDataAsset table "table" "bronze"
                  (Some "Raw data from source system") (Some (clock i)) None
                  (Some "ETL Pipeline") ["raw"; "bronze"; "source"]))
     <$> zip (seq 0 6) bronze_tables) ++
  ((λ '(i, table),
      AddAsset (mkDataAsset table "table" "silver"
                  (Some "Cleansed and standardized data") (Some (clock i)) None
                  (Some "ETL Pipeline") ["cleansed"; "silver"; "standardized"]))
     <$> zip (seq 6 6) silver_tables) ++
  ((λ '(i, (name, obj_type, description)),
      AddAsset (mkDataAsset name obj_type "gold"
                  (Some description) (Some (clock i)) None
                  (Some "Analytics Team") ["analytics"; "gold"; "star-schema"]))
     <$> zip (seq 12 3) gold_objects) ++
  ((λ '(i, (source, target, logic)),
      AddTransformation
        (mkDataTransformation [source] target "etl" logic (clock i) "silver.load_silver"))
     <$> zip (seq 15 6) silver_transforms) ++
  [ AddTransformation
      (mkDataTransformation
         ["silver.crm_cust_info"; "silver.erp_cust_az12"; "silver.erp_loc_a101"]
         "gold.dim_customers" "view" "Customer dimension combining CRM and ERP data"
         (clock 21) "gold.dim_customers view");
    AddTransformation
      (mkDataTransformation ["silver.crm_prd_info"; "silver.erp_px_cat_g1v2"]
         "gold.dim_products" "view" "Product dimension with category information"
         (clock 22) "gold.dim_products view");
    AddTransformation
      (mkDataTransformation
         ["silver.crm_sales_details"; "gold.dim_customers"; "gold.dim_products"]
         "gold.fact_sales" "view" "Sales fact table with dimension keys"
         (clock 23) "gold.fact_sales view") ].

(** The keys that [initialize_warehouse_lineage] registers, in its order. *)
Definition warehouse_keys : list string :=
  ((λ table, "bronze." +:+ table) <$> bronze_tables) ++
  ((λ table, "silver." +:+ table) <$> silver_tables) ++
  ((λ object, "gold." +:+ object.1.1) <$> gold_objects).

(** The transformations among a sequence of calls, in order. *)
Definition added_transformations (cs : list call) : list DataTransformation :=
  omap (λ c, match c with
             | AddTransformation t => Some t
             | AddAsset _ => None
             end) cs.

(** The lookups that [_rebuild_dependency_graphs] makes all succeed: the
    log holds no transformation with a source whose target or one of whose
    sources is not a registered key. *)
Definition rebuild_ok (self : DataLineageTracker) : Prop :=
  ∀ t, t ∈ transformations self →
    (source_assets t = [] ∨ target_asset t ∈ (assets self).*1) ∧
    ∀ s, s ∈ source_assets t → s ∈ (assets self).*1.

(** A call that finds its keys and edges already in the adjacency maps. *)
Definition saturated (self : DataLineageTracker) (c : call) : Prop :=
  match c with
  | AddAsset asset =>
      is_Some (dependencies self !! asset_key_of asset) ∧
      is_Some (downstream self !! asset_key_of asset)
  | AddTransformation t =>
      is_Some (dependencies self !! target_asset t) ∧
      ∀ s, s ∈ source_assets t →
        member (dependencies self) (target_asset t) s ∧
        member (downstream self) s (target_asset t)
  end.

(** Two calls that name the same keys and edges. *)
Definition same_footprint (c c' : call) : Prop :=
  match c, c' with
  | AddAsset a, AddAsset a' => asset_key_of a = asset_key_of a'
  | AddTransformation t, AddTransformation t' =>
      target_asset t = target_asset t' ∧ source_assets t = source_assets t'
  | _, _ => False
  end.


(** [bronze.x] with [n] direct consumers [silver.x1], ..., and nothing
    registered. *)
Definition fan_out_tracker (names : list string) : DataLineageTracker :=
  do_calls empty_tracker ((λ n, AddTransformation (link "bronze.x" ("silver." +:+ n))) <$> names).

Definition twelve_names : list string :=
  ["x1"; "x2"; "x3"; "x4"; "x5"; "x6"; "x7"; "x8"; "x9"; "x10"; "x11"; "x12"].

(** The lines of the diagrams, one by one. *)
Definition mermaid_class (layer : string) : string :=
  if decide (layer = "bronze") then ":::bronze"
  else if decide (layer = "silver") then ":::silver"
  else if decide (layer = "gold") then ":::gold"
  else "".

Definition mermaid_node_line (entry : string * DataAsset) : string :=
  "    " +:+ node_id_of entry.1 +:+ "[" +:+ dquote +:+
  (name entry.2 +:+ "\n(" +:+ type entry.2 +:+ ")") +:+ dquote +:+ "]" +:+
  mermaid_class (schema entry.2).

Definition dot_color (layer : string) : string :=
  if decide (layer = "bronze") then "#CD7F32"
  else if decide (layer = "silver") then "#C0C0C0"
  else if decide (layer = "gold") then "#FFD700"
  else "#CCCCCC".

Definition dot_node_line (entry : string * DataAsset) : string :=
  "    " +:+ node_id_of entry.1 +:+ " [label=" +:+ dquote +:+ name entry.2 +:+ "\n("
  +:+ type entry.2 +:+ ")" +:+ dquote +:+ ", fillcolor=" +:+ dquote
  +:+ dot_color (schema entry.2) +:+ dquote +:+ ", style=filled];".

(** One line per source of each logged transformation, in log order. *)
Definition all_edge_lines (arrow stop : string) (log : list DataTransformation)
  : list string :=
  t ← log;
  s ← source_assets t;
  ["    " +:+ node_id_of s +:+ arrow +:+ node_id_of (target_asset t) +:+ stop].

Definition mermaid_styles : list string :=
  [ "";
    "    classDef bronze fill:#cd7f32,stroke:#8B4513,stroke-width:2px,color:#fff";
    "    classDef silver fill:#c0c0c0,stroke:#808080,stroke-width:2px,color:#000";
    "    classDef gold fill:#ffd700,stroke:#daa520,stroke-width:2px,color:#000" ].

(** The keys of the assets among a sequence of calls, in order. *)
Definition added_keys (cs : list call) : list string :=
  omap (λ c, match c with
             | AddAsset asset => Some (asset_key_of asset)
             | AddTransformation _ => None
             end) cs.

(** A tracker that holds the seeded warehouse: its maps are those of its
    registry and log, its keys are the warehouse's, and its log stays within
    them. *)
Definition seeded (self : DataLineageTracker) : Prop :=
  consistent self ∧
  (assets self).*1 = warehouse_keys ∧
  Forall (λ t, target_asset t ∈ warehouse_keys ∧
               Forall (λ s, s ∈ warehouse_keys) (source_assets t))
    (transformations self).

(** ** Proof automation *)

(** Membership of a literal key in a literal list of keys. *)
Ltac decide_keys :=
  repeat match goal with
  | |- context [bool_decide (?k ∈ ?l)] =>
      rewrite (bool_decide_eq_true_2 (k ∈ l))
        by (unfold asset_fields, transformation_fields; csimpl; set_solver)
  | |- context [decide (?a = ?b)] =>
      first [ rewrite (decide_True (P := a = b)) by reflexivity
            | rewrite (decide_False (P := a = b)) by discriminate ]
  end.

(** * Properties *)

(** ** Edges are only ever added *)

Section Registration.
Implicit Types (graph : gmap string (gset string)) (self : DataLineageTracker).

Lemma ensure_key_lookup graph key k :
  ensure_key key graph !! k =
    match graph !! k with
    | Some members => Some members
    | None => if decide (key = k) then Some ∅ else None
    end.
Proof.
  unfold ensure_key. destruct (graph !! key) as [m|] eqn:Hkey.
  - destruct (graph !! k) eqn:Hk; [done|].
    case_decide; [congruence | done].
  - rewrite lookup_insert. case_decide as Heq.
    + subst k. by rewrite Hkey.
    + by destruct (graph !! k).
Qed.

Lemma ensure_key_present graph key : is_Some (ensure_key key graph !! key).
Proof.
  rewrite ensure_key_lookup. destruct (graph !! key); [eauto|].
  rewrite decide_True; eauto.
Qed.

Lemma ensure_key_member graph key k x :
  member (ensure_key key graph) k x ↔ member graph k x.
Proof.
  unfold member. rewrite ensure_key_lookup.
  destruct (graph !! k) as [m|]; [done|].
  case_decide; split; intros (m' & Hm & Hx); simplify_eq; set_solver.
Qed.

Lemma add_member_lookup graph key x k :
  add_member key x graph !! k =
    if decide (key = k) then (λ members, members ∪ {[x]}) <$> graph !! k
    else graph !! k.
Proof.
  unfold add_member. case_decide as Heq.
  - subst k. by rewrite lookup_alter_eq.
  - by rewrite lookup_alter_ne.
Qed.

Lemma add_member_keeps graph key x k y :
  member graph k y → member (add_member key x graph) k y.
Proof.
  intros (m & Hm & Hy). unfold member. rewrite add_member_lookup.
  case_decide; rewrite Hm; simpl; eexists; split; [done | set_solver | done | done].
Qed.

Lemma add_member_adds graph key x :
  is_Some (graph !! key) → member (add_member key x graph) key x.
Proof.
  intros [m Hm]. unfold member. rewrite add_member_lookup, decide_True, Hm by done.
  simpl. eexists; split; [done | set_solver].
Qed.

Lemma add_member_present graph key x k :
  is_Some (graph !! k) → is_Some (add_member key x graph !! k).
Proof.
  intros [m Hm]. rewrite add_member_lookup. case_decide; rewrite Hm; simpl; eauto.
Qed.

Lemma ensure_key_keeps_present graph key k :
  is_Some (graph !! k) → is_Some (ensure_key key graph !! k).
Proof. intros [m Hm]. rewrite ensure_key_lookup, Hm. eauto. Qed.

(** One pass of the source loop keeps what is there and adds its edge. *)
Lemma add_edge_keeps target graphs source :
  (∀ k y, member graphs.1 k y → member (add_edge target graphs source).1 k y) ∧
  (∀ k y, member graphs.2 k y → member (add_edge target graphs source).2 k y) ∧
  (∀ k, is_Some (graphs.1 !! k) → is_Some ((add_edge target graphs source).1 !! k)).
Proof.
  destruct graphs as [deps down]; simpl. split_and!.
  - intros k y H. by apply add_member_keeps.
  - intros k y H. by apply add_member_keeps, ensure_key_member.
  - intros k H. by apply add_member_present.
Qed.

Lemma add_edge_adds target graphs source :
  is_Some (graphs.1 !! target) →
  member (add_edge target graphs source).1 target source ∧
  member (add_edge target graphs source).2 source target.
Proof.
  destruct graphs as [deps down]; simpl. intros Ht. split.
  - by apply add_member_adds.
  - apply add_member_adds, ensure_key_present.
Qed.

Lemma add_edges_keep target sources : ∀ graphs,
  (∀ k y, member graphs.1 k y → member (foldl (add_edge target) graphs sources).1 k y) ∧
  (∀ k y, member graphs.2 k y → member (foldl (add_edge target) graphs sources).2 k y) ∧
  (∀ k, is_Some (graphs.1 !! k) →
        is_Some ((foldl (add_edge target) graphs sources).1 !! k)).
Proof.
  induction sources as [|s sources IH]; intros graphs; simpl; [done|].
  destruct (IH (add_edge target graphs s)) as (IH1 & IH2 & IH3).
  destruct (add_edge_keeps target graphs s) as (H1 & H2 & H3).
  split_and!; eauto.
Qed.

Lemma add_edges_add target sources : ∀ graphs s,
  is_Some (graphs.1 !! target) → s ∈ sources →
  member (foldl (add_edge target) graphs sources).1 target s ∧
  member (foldl (add_edge target) graphs sources).2 s target.
Proof.
  induction sources as [|s' sources IH]; intros graphs s Ht Hs; simpl.
  - by apply elem_of_nil in Hs.
  - destruct (add_edge_keeps target graphs s') as (_ & _ & H3).
    destruct (decide (s ∈ sources)) as [Hin|Hnin].
    + apply IH; [by apply H3 | done].
    + apply elem_of_cons in Hs as [->|]; [|done].
      destruct (add_edge_adds target graphs s' Ht) as [Hd Hw].
      destruct (add_edges_keep target sources (add_edge target graphs s')) as (K1 & K2 & _).
      split; eauto.
Qed.

Lemma add_transformation_has_edges transformation self :
  has_edges transformation (add_transformation transformation self).
Proof.
  intros s Hs. unfold add_transformation; simpl.
  apply add_edges_add; [apply ensure_key_present | done].
Qed.

Lemma add_asset_keeps asset self :
  (∀ k y, member (dependencies self) k y → member (dependencies (add_asset asset self)) k y) ∧
  (∀ k y, member (downstream self) k y → member (downstream (add_asset asset self)) k y).
Proof. split; intros k y H; simpl; by apply ensure_key_member. Qed.

Lemma add_transformation_keeps transformation self :
  (∀ k y, member (dependencies self) k y →
          member (dependencies (add_transformation transformation self)) k y) ∧
  (∀ k y, member (downstream self) k y →
          member (downstream (add_transformation transformation self)) k y).
Proof.
  unfold add_transformation; simpl.
  destruct (add_edges_keep (target_asset transformation) (source_assets transformation)
              (ensure_key (target_asset transformation) (dependencies self), downstream self))
    as (K1 & K2 & _).
  split; intros k y H.
  - by apply K1, ensure_key_member.
  - by apply K2.
Qed.

Lemma do_call_keeps self c :
  (∀ k y, member (dependencies self) k y → member (dependencies (do_call self c)) k y) ∧
  (∀ k y, member (downstream self) k y → member (downstream (do_call self c)) k y).
Proof. destruct c; [apply add_asset_keeps | apply add_transformation_keeps]. Qed.

Lemma do_calls_keep cs : ∀ self,
  (∀ k y, member (dependencies self) k y → member (dependencies (do_calls self cs)) k y) ∧
  (∀ k y, member (downstream self) k y → member (downstream (do_calls self cs)) k y).
Proof.
  induction cs as [|c cs IH]; intros self; [done|].
  destruct (IH (do_call self c)) as [I1 I2], (do_call_keeps self c) as [C1 C2].
  split; intros k y H; [apply I1, C1, H | apply I2, C2, H].
Qed.

Lemma do_calls_keep_edges transformation self cs :
  has_edges transformation self → has_edges transformation (do_calls self cs).
Proof.
  intros H s Hs. destruct (H s Hs) as [Hd Hw], (do_calls_keep cs self) as [K1 K2].
  split; [by apply K1 | by apply K2].
Qed.

Lemma do_calls_app self cs cs' :
  do_calls self (cs ++ cs') = do_calls (do_calls self cs) cs'.
Proof. apply foldl_app. Qed.

(** C1. After [add_transformation] on any tracker state, every source of
    the transformation is in [dependencies[target]] and the target is in
    [downstream[source]]; any further [add_asset] and [add_transformation]
    calls keep these edges; so in the state reached by any sequence of calls
    from any state, every transformation added by one of the calls is in the
    log with its edges in both maps. *)
Theorem add_transformation_edge_invariant :
  ∀ (self : DataLineageTracker) (transformation : DataTransformation),
    has_edges transformation (add_transformation transformation self) ∧
    (∀ later, has_edges transformation
                (do_calls (add_transformation transformation self) later)) ∧
    (∀ before later,
       let final := do_calls self (before ++ AddTransformation transformation :: later) in
       transformation ∈ transformations final ∧ has_edges transformation final).
Proof.
  intros self transformation. split_and!.
  - apply add_transformation_has_edges.
  - intros later. apply do_calls_keep_edges, add_transformation_has_edges.
  - intros before later final. unfold final. rewrite do_calls_app. simpl. split.
    + clear final.
      assert (∀ cs st t, t ∈ transformations st → t ∈ transformations (do_calls st cs)) as Hlog.
      { induction cs as [|c cs IH]; intros st t Ht; [done|]. simpl. apply IH.
        destruct c; simpl; [done | set_solver]. }
      apply Hlog. simpl. set_solver.
    + apply do_calls_keep_edges, add_transformation_has_edges.
Qed.

End Registration.

(** ** The closure queries *)

Section Closure.
Context {order : SetIter}.
Implicit Types (graph : gmap string (gset string)) (visited : gset string).

Lemma elem_of_set_iter (X : gset string) x : x ∈ set_iter X ↔ x ∈ X.
Proof. by rewrite (set_iter_perm X), elem_of_elements. Qed.

Lemma length_set_iter (X : gset string) : length (set_iter X) = size X.
Proof. by rewrite (set_iter_perm X). Qed.

Lemma edge_lookup graph u v : edge graph u v ↔ member graph u v.
Proof.
  unfold edge, get_or_empty, member. destruct (graph !! u) as [m|]; simpl.
  - split; [eauto | by intros (? & [= <-] & ?)].
  - split; [set_solver | by intros (? & [=] & ?)].
Qed.

Lemma edge_source_key graph u v : edge graph u v → u ∈ dom graph.
Proof.
  rewrite edge_lookup. intros (m & Hm & _). apply elem_of_dom. eauto.
Qed.

Lemma edge_target_key graph u v : edge graph u v → v ∈ graph_keys graph.
Proof.
  rewrite edge_lookup. intros (m & Hm & Hv). unfold graph_keys.
  apply elem_of_union_r, elem_of_union_list. exists m. split; [|done].
  apply list_elem_of_fmap. exists (u, m). split; [done|].
  by apply elem_of_map_to_list.
Qed.

Lemma walk_start graph visited a x : walk graph visited a x → a ∉ visited.
Proof. by destruct 1. Qed.

Lemma walk_weaken graph visited visited' a x :
  visited ⊆ visited' → walk graph visited' a x → walk graph visited a x.
Proof.
  intros Hsub. induction 1 as [a x Ha He | a d x Ha He Hw IH].
  - apply walk_last; [set_solver | done].
  - eapply walk_next; [set_solver | done | done].
Qed.

Lemma walk_end_key graph visited a x : walk graph visited a x → x ∈ graph_keys graph.
Proof. induction 1; eauto using edge_target_key. Qed.

(** A walk either stays clear of [b], or its part after the last visit of
    [b] does. *)
Lemma walk_after_last graph visited b c x :
  walk graph visited c x →
  walk graph (visited ∪ {[b]}) c x ∨ edge graph b x ∨
  ∃ d, edge graph b d ∧ walk graph (visited ∪ {[b]}) d x.
Proof.
  induction 1 as [c x Hc He | c d x Hc He Hw IH].
  - destruct (decide (c = b)) as [->|Hne]; [by right; left|].
    left. apply walk_last; [set_solver | done].
  - destruct IH as [IH | [IH | IH]]; [|by right; left|by right; right].
    destruct (decide (c = b)) as [->|Hne]; [right; right; eauto|].
    left. eapply walk_next; [set_solver | done | done].
Qed.

Lemma walk_unfold graph visited a x :
  a ∉ visited →
  walk graph visited a x ↔
  edge graph a x ∨ ∃ d, edge graph a d ∧ walk graph (visited ∪ {[a]}) d x.
Proof.
  intros Ha. split.
  - intros Hw. destruct (walk_after_last graph visited a a x Hw) as [H | H]; [|done].
    apply walk_start in H. set_solver.
  - intros [He | (d & He & Hw)]; [by apply walk_last|].
    eapply walk_next; [done | done |]. eapply walk_weaken; [|done]. set_solver.
Qed.

Lemma walk_tc graph a x : walk graph ∅ a x ↔ tc (edge graph) a x.
Proof.
  split.
  - induction 1; [by apply tc_once | by eapply tc_l].
  - induction 1; [apply walk_last | eapply walk_next]; eauto; set_solver.
Qed.

(** The accumulation loop of the closure: it returns as soon as every
    recursive call does, with the union of what they return. *)
Lemma closure_loop (f : string → option (gset string)) (P : string → string → Prop) l :
  (∀ d, d ∈ l → ∃ r, f d = Some r ∧ ∀ x, x ∈ r ↔ P d x) →
  ∀ init, ∃ r,
    foldl (λ acc dep, found ← acc; more ← f dep; Some (found ∪ more)) (Some init) l = Some r ∧
    ∀ x, x ∈ r ↔ x ∈ init ∨ ∃ d, d ∈ l ∧ P d x.
Proof.
  induction l as [|d l IH]; intros Hf init; simpl.
  - exists init. split; [done|]. set_solver.
  - destruct (Hf d) as (rd & Hrd & Hd); [set_solver|]. rewrite Hrd. simpl.
    destruct (IH (λ d' Hd', Hf d' (list_elem_of_further _ _ _ Hd')) (init ∪ rd))
      as (r & Hr & Hx).
    exists r. split; [done|]. intros x. rewrite Hx, elem_of_union, Hd.
    setoid_rewrite elem_of_cons. naive_solver.
Qed.

Lemma dom_minus_visited_lt graph visited a :
  a ∈ dom graph → a ∉ visited →
  size (dom graph ∖ (visited ∪ {[a]})) < size (dom graph ∖ visited).
Proof.
  intros Hdom Ha. apply subset_size. apply strict_spec_alt. split; [set_solver|].
  intros Heq. assert (a ∈ dom graph ∖ visited) as Hin by set_solver.
  rewrite <- Heq in Hin. set_solver.
Qed.

(** With a bound above the number of keys not yet visited, the traversal
    returns, and what it returns is the set of ends of the walks that avoid
    [visited]. *)
Lemma closure_returns fuel : ∀ graph a visited,
  size (dom graph ∖ visited) < fuel →
  ∃ r, closure fuel graph a visited = Some r ∧ ∀ x, x ∈ r ↔ walk graph visited a x.
Proof.
  induction fuel as [|fuel IH]; intros graph a visited Hfuel; [lia|].
  simpl. case_decide as Ha.
  - exists ∅. split; [done|]. intros x. split; [set_solver|].
    intros Hw. by apply walk_start in Hw.
  - edestruct (closure_loop (λ dep, closure fuel graph dep (visited ∪ {[a]}))
                 (walk graph (visited ∪ {[a]})) (set_iter (get_or_empty graph a)))
      as (r & Hr & Hx).
    { intros d Hd. apply IH. apply elem_of_set_iter in Hd.
      assert (a ∈ dom graph) as Hdom by (by eapply edge_source_key).
      pose proof (dom_minus_visited_lt graph visited a Hdom Ha). lia. }
    exists r. split; [exact Hr|]. intros x. rewrite Hx, walk_unfold by done.
    setoid_rewrite elem_of_set_iter. unfold edge. set_solver.
Qed.

Lemma closure_from_scratch graph a fuel :
  depth_bound graph ≤ fuel →
  ∃ r, closure fuel graph a ∅ = Some r ∧ ∀ x, x ∈ r ↔ tc (edge graph) a x.
Proof.
  intros Hfuel. destruct (closure_returns fuel graph a ∅) as (r & Hr & Hx).
  - unfold depth_bound in Hfuel.
    assert (size (dom graph ∖ ∅) ≤ size (dom graph)) by (apply subseteq_size; set_solver).
    lia.
  - exists r. split; [done|]. intros x. by rewrite Hx, walk_tc.
Qed.

Lemma tc_end_key graph a x : tc (edge graph) a x → x ∈ graph_keys graph.
Proof. rewrite <- walk_tc. apply walk_end_key. Qed.

(** What the two queries have in common, stated on the adjacency map. *)
Lemma closure_total graph a :
  ∃ r, closure (depth_bound graph) graph a ∅ = Some r ∧
       (∀ fuel, depth_bound graph ≤ fuel → closure fuel graph a ∅ = Some r) ∧
       r ⊆ graph_keys graph ∧ size r ≤ size (graph_keys graph).
Proof.
  destruct (closure_from_scratch graph a (depth_bound graph)) as (r & Hr & Hx); [done|].
  exists r. split; [done|].
  assert (r ⊆ graph_keys graph) as Hsub.
  { intros x Hin. eapply tc_end_key. by apply Hx. }
  split_and!; [|done|by apply subseteq_size].
  intros fuel Hfuel. destruct (closure_from_scratch graph a fuel Hfuel) as (r' & Hr' & Hx').
  rewrite Hr'. f_equal. apply set_eq. intros x. by rewrite Hx, Hx'.
Qed.

(** C3. On every tracker state, cyclic or not, and for every asset key,
    [get_upstream_dependencies] and [get_downstream_impact] return (the
    recursion stays within the bound, and any larger bound gives the same
    set); the returned finite set holds only keys that occur in the adjacency
    map, so it has at most as many members as there are such keys. *)
Theorem closure_queries_terminate :
  ∀ (self : DataLineageTracker) (asset : string),
    (∃ r, get_upstream_dependencies self asset = Some r ∧
          (∀ fuel, depth_bound (dependencies self) ≤ fuel →
                   closure fuel (dependencies self) asset ∅ = Some r) ∧
          r ⊆ graph_keys (dependencies self) ∧
          size r ≤ size (graph_keys (dependencies self))) ∧
    (∃ r, get_downstream_impact self asset = Some r ∧
          (∀ fuel, depth_bound (downstream self) ≤ fuel →
                   closure fuel (downstream self) asset ∅ = Some r) ∧
          r ⊆ graph_keys (downstream self) ∧
          size r ≤ size (graph_keys (downstream self))).
Proof. intros self asset. split; apply closure_total. Qed.

(** C4. [get_upstream_dependencies a] is the set of the assets reached from
    [a] along one or more [dependencies] edges, and [get_downstream_impact a]
    the set of those reached along one or more [downstream] edges. *)
Theorem closure_queries_transitive :
  ∀ (self : DataLineageTracker) (a : string),
    (∃ r, get_upstream_dependencies self a = Some r ∧
          ∀ x, x ∈ r ↔ tc (edge (dependencies self)) a x) ∧
    (∃ r, get_downstream_impact self a = Some r ∧
          ∀ x, x ∈ r ↔ tc (edge (downstream self)) a x).
Proof. intros self a. split; by apply closure_from_scratch. Qed.

End Closure.

(** ** Path search *)

Section PathSearch.
Context {order : SetIter}.
Implicit Types (graph : gmap string (gset string)) (visited : gset string).

Lemma route_weaken graph visited visited' a t :
  visited ⊆ visited' → route graph visited' a t → route graph visited a t.
Proof.
  intros Hsub. induction 1 as [|a d t Ha He Hr IH]; [apply route_here|].
  eapply route_next; [set_solver | done | done].
Qed.

Lemma route_after_last graph visited b c t :
  b ≠ t → route graph visited c t →
  route graph (visited ∪ {[b]}) c t ∨
  ∃ d, edge graph b d ∧ route graph (visited ∪ {[b]}) d t.
Proof.
  intros Hb. induction 1 as [|c d t Hc He Hr IH]; [left; apply route_here|].
  destruct (IH Hb) as [IH' | IH']; [|by right].
  destruct (decide (c = b)) as [->|Hne]; [right; eauto|].
  left. eapply route_next; [set_solver | done | done].
Qed.

Lemma route_unfold graph visited a t :
  a ≠ t → a ∉ visited →
  route graph visited a t ↔ ∃ d, edge graph a d ∧ route graph (visited ∪ {[a]}) d t.
Proof.
  intros Hne Ha. split.
  - intros Hr. destruct (route_after_last graph visited a a t Hne Hr) as [H | H]; [|done].
    inversion H; subst; [done | set_solver].
  - intros (d & He & Hr). eapply route_next; [done | done |].
    eapply route_weaken; [|done]. set_solver.
Qed.

Lemma route_rtc graph a t : route graph ∅ a t ↔ rtc (edge graph) a t.
Proof.
  split.
  - induction 1; [apply rtc_refl | by eapply rtc_l].
  - induction 1; [apply route_here | eapply route_next]; eauto; set_solver.
Qed.

Lemma first_truthy_spec (f : string → option (option (list string))) l :
  (∀ d, d ∈ l → ∃ res, f d = Some res ∧ (res = None ∨ truthy res = true)) →
  ∃ res, first_truthy f l = Some res ∧
    ((res = None ∧ ∀ d, d ∈ l → f d = Some None) ∨
     (truthy res = true ∧ ∃ d, d ∈ l ∧ f d = Some res)).
Proof.
  induction l as [|d l IH]; intros Hf; simpl.
  - exists None. split; [done|]. left. split; [done|]. by intros d Hd%elem_of_nil.
  - destruct (Hf d) as (res & Hres & Hcase); [set_solver|]. rewrite Hres.
    destruct Hcase as [-> | Htrue].
    + simpl. destruct IH as (res' & Hres' & Hcase').
      { intros d' Hd'. apply Hf. set_solver. }
      exists res'. split; [done|]. destruct Hcase' as [[-> Hall] | [Ht (d' & Hd' & Hfd')]].
      * left. split; [done|]. intros d' [->|Hd']%elem_of_cons; eauto.
      * right. split; [done|]. exists d'. set_solver.
    + rewrite Htrue. exists res. split; [done|]. right. split; [done|].
      exists d. set_solver.
Qed.

Lemma lineage_path_cons graph a d t q :
  edge graph a d → lineage_path graph d t q → lineage_path graph a t (a :: q).
Proof.
  intros He (Hhead & Hlast & Hchain). destruct q as [|d' q]; [done|].
  simpl in Hhead. injection Hhead as ->. split_and!; [done | | done].
  by rewrite last_cons, Hlast.
Qed.

(** With a bound above the number of keys not yet visited, the search
    returns: a path that extends [path] by a lineage path from [current] to
    [target] when there is a route, and [None] when there is none. *)
Lemma find_path_returns fuel : ∀ graph current target path visited,
  size (dom graph ∖ visited) < fuel →
  ∃ res, find_path fuel graph current target path visited = Some res ∧
    match res with
    | Some p => ∃ q, p = path ++ q ∧ lineage_path graph current target q ∧
                     route graph visited current target
    | None => ¬ route graph visited current target
    end.
Proof.
  induction fuel as [|fuel IH]; intros graph current target path visited Hfuel; [lia|].
  simpl. case_decide as Heq.
  { subst. eexists. split; [done|]. exists [target]. split_and!; [done | done | apply route_here]. }
  case_decide as Hvis.
  { exists None. split; [done|]. inversion 1; subst; done. }
  assert (∀ d, d ∈ set_iter (get_or_empty graph current) →
            size (dom graph ∖ (visited ∪ {[current]})) < fuel) as Hless.
  { intros d Hd%elem_of_set_iter.
    assert (current ∈ dom graph) as Hdom by (by eapply edge_source_key).
    pose proof (dom_minus_visited_lt graph visited current Hdom Hvis). lia. }
  edestruct (first_truthy_spec
               (λ d, find_path fuel graph d target (path ++ [current]) (visited ∪ {[current]}))
               (set_iter (get_or_empty graph current))) as (res & Hres & Hcase).
  { intros d Hd. destruct (IH graph d target (path ++ [current]) _ (Hless d Hd))
      as (res & Hres & Hspec).
    exists res. split; [done|]. destruct res as [p|]; [right | by left].
    destruct Hspec as (q & -> & (Hhead & _) & _).
    destruct q; [done|]. by destruct path. }
  exists res. split; [exact Hres|].
  destruct Hcase as [[-> Hall] | [Htrue (d & Hd & Hfd)]].
  - rewrite route_unfold by done. intros (d & He & Hr).
    assert (d ∈ set_iter (get_or_empty graph current)) as Hd by (by apply elem_of_set_iter).
    destruct (IH graph d target (path ++ [current]) _ (Hless d Hd)) as (res & Hres' & Hspec).
    rewrite (Hall d Hd) in Hres'. by simplify_eq.
  - destruct (IH graph d target (path ++ [current]) _ (Hless d Hd)) as (res' & Hres' & Hspec).
    rewrite Hfd in Hres'. simplify_eq. destruct res' as [p|]; [|done].
    destruct Hspec as (q & -> & Hq & Hr). apply elem_of_set_iter in Hd.
    exists (current :: q). split_and!.
    + by rewrite <- app_assoc.
    + by eapply lineage_path_cons.
    + apply route_unfold; eauto.
Qed.

Lemma first_truthy_mono (f f' : string → option (option (list string))) l res :
  (∀ d r, f d = Some r → f' d = Some r) →
  first_truthy f l = Some res → first_truthy f' l = Some res.
Proof.
  intros Hf. induction l as [|d l IH]; simpl; [done|].
  destruct (f d) as [r|] eqn:Hd; [|done]. rewrite (Hf d r Hd).
  destruct (truthy r); [done | exact IH].
Qed.

(** A larger recursion bound does not change what the search returns. *)
Lemma find_path_more_fuel fuel : ∀ fuel' graph current target path visited res,
  fuel ≤ fuel' →
  find_path fuel graph current target path visited = Some res →
  find_path fuel' graph current target path visited = Some res.
Proof.
  induction fuel as [|fuel IH]; intros fuel' graph current target path visited res Hle;
    [done|].
  destruct fuel' as [|fuel']; [lia|]. simpl.
  case_decide; [done|]. case_decide; [done|].
  apply first_truthy_mono. intros d r. apply IH. lia.
Qed.

Lemma set_iter_singleton (x : string) : set_iter {[x]} = [x].
Proof.
  apply Permutation_singleton_r. by rewrite (set_iter_perm {[x]}), elements_singleton.
Qed.

End PathSearch.

Section LineagePath.
Context {order : SetIter}.

Lemma find_path_total graph source target :
  ∃ res, find_path (depth_bound graph) graph source target [] ∅ = Some res ∧
    match res with
    | Some p => lineage_path graph source target p ∧ rtc (edge graph) source target
    | None => ¬ rtc (edge graph) source target
    end.
Proof.
  destruct (find_path_returns (depth_bound graph) graph source target [] ∅)
    as (res & Hres & Hspec).
  { unfold depth_bound.
    assert (size (dom graph ∖ ∅) ≤ size (dom graph)) by (apply subseteq_size; set_solver).
    lia. }
  exists res. split; [done|]. destruct res as [p|].
  - destruct Hspec as (q & -> & Hq & Hr). by rewrite <- route_rtc.
  - by rewrite <- route_rtc.
Qed.

Lemma scenario_downstream_bronze :
  get_or_empty (downstream scenario_tracker) "bronze.t1" = {["silver.t1"]}.
Proof. vm_compute. reflexivity. Qed.

Lemma scenario_path :
  get_lineage_path scenario_tracker "bronze.t1" "silver.t1"
  = Some ["bronze.t1"; "silver.t1"].
Proof.
  unfold get_lineage_path.
  replace (depth_bound (downstream scenario_tracker)) with 3 by (by vm_compute).
  cbn [find_path]. rewrite decide_False by done. rewrite decide_False by set_solver.
  rewrite scenario_downstream_bronze, set_iter_singleton.
  cbn [first_truthy]. rewrite decide_True by done. reflexivity.
Qed.

(** C5. [get_lineage_path source target] returns (within the recursion
    bound, and the same sequence under any larger bound); the sequence is
    empty exactly when [target] cannot be reached from [source] along [downstream]
    edges (in zero or more steps), and otherwise it starts with [source],
    ends with [target], and each consecutive pair is a [downstream] edge.
    In the scenario with [bronze.t1], [silver.t1] and the transformation
    between them it is [["bronze.t1"; "silver.t1"]]. *)
Theorem get_lineage_path_correct :
  ∀ (self : DataLineageTracker) (source target : string),
    (∃ p, get_lineage_path self source target = Some p ∧
          (∀ fuel, depth_bound (downstream self) ≤ fuel →
                   or_empty <$> find_path fuel (downstream self) source target [] ∅ = Some p) ∧
          (p = [] ↔ ¬ rtc (edge (downstream self)) source target) ∧
          (p = [] ∨ lineage_path (downstream self) source target p)) ∧
    get_lineage_path scenario_tracker "bronze.t1" "silver.t1"
    = Some ["bronze.t1"; "silver.t1"].
Proof.
  intros self source target. split; [|apply scenario_path].
  unfold get_lineage_path.
  destruct (find_path_total (downstream self) source target) as (res & Hres & Hspec).
  rewrite Hres. simpl. eexists. split; [done|]. split.
  { intros fuel Hfuel. by rewrite (find_path_more_fuel _ _ _ _ _ _ _ _ Hfuel Hres). }
  destruct res as [p|].
  - destruct Hspec as [Hp Hr]. destruct p as [|u p]; [by destruct Hp|].
    split; [|by right]. split; [done|]. by intros.
  - split; [|by left]. done.
Qed.

(** C10. For every tracker state and every string [a], registered or not,
    [get_lineage_path a a] is the one-element sequence [[a]]. *)
Theorem get_lineage_path_same_key :
  ∀ (self : DataLineageTracker) (a : string),
    get_lineage_path self a a = Some [a].
Proof.
  intros self a. unfold get_lineage_path, depth_bound. simpl.
  by rewrite decide_True.
Qed.

End LineagePath.

(** ** Impact analysis *)

Section Impact.
Context {order : SetIter}.

Lemma scan_transformations_spec asset log : ∀ found,
  scan_transformations asset log found
  = found ++ (t ← filter (λ t, asset ∈ source_assets t) log; [record_of t asset]).
Proof.
  unfold scan_transformations.
  induction log as [|t log IH]; intros found; simpl; [by rewrite app_nil_r|].
  rewrite IH, filter_cons. case_bool_decide as Hin.
  - rewrite decide_True by done. rewrite bind_cons. simpl. by rewrite <- app_assoc.
  - by rewrite decide_False by done.
Qed.

Lemma impact_loop_returns self changed : ∀ affected found,
  ∃ affected',
    foldl (impact_step self) (Some (affected, found)) changed
    = Some (affected', found ++ records_per_position (transformations self) changed).
Proof.
  induction changed as [|s changed IH]; intros affected found; simpl.
  - exists affected. by rewrite app_nil_r.
  - destruct (closure_total (downstream self) s) as (r & Hr & _).
    unfold get_downstream_impact. rewrite Hr. simpl.
    destruct (IH (affected ∪ r) (scan_transformations s (transformations self) found))
      as (affected' & ->).
    exists affected'. rewrite scan_transformations_spec. by rewrite <- app_assoc.
Qed.

Lemma set_iter_empty : set_iter ∅ = [].
Proof. apply Permutation_nil_r. by rewrite (set_iter_perm ∅), elements_empty. Qed.

(** C6. [analyze_impact] returns; with [na] affected assets and [nt]
    affected transformations in its result, the risk level is [HIGH] with two
    recommendations if [na > 10] or [nt > 5], else [MEDIUM] with one
    recommendation if [na > 5] or [nt > 2], else [LOW] with none; and on the
    empty sequence the result has risk level [LOW], no affected asset, no
    affected transformation and no recommendation. *)
Theorem analyze_impact_risk :
  ∀ (self : DataLineageTracker) (changed : list string),
    (∃ r, analyze_impact self changed = Some r ∧
       let na := length (affected_assets r) in
       let nt := length (affected_transformations r) in
       (risk_level r = "HIGH" ∧ (10 < na ∨ 5 < nt) ∧ length (recommendations r) = 2) ∨
       (risk_level r = "MEDIUM" ∧ ¬ (10 < na ∨ 5 < nt) ∧ (5 < na ∨ 2 < nt) ∧
        length (recommendations r) = 1) ∨
       (risk_level r = "LOW" ∧ ¬ (10 < na ∨ 5 < nt) ∧ ¬ (5 < na ∨ 2 < nt) ∧
        recommendations r = [])) ∧
    analyze_impact self [] =
      Some {| changed_assets := []; affected_assets := [];
              affected_transformations := []; risk_level := "LOW";
              recommendations := [] |}.
Proof.
  intros self changed. split.
  - unfold analyze_impact.
    destruct (impact_loop_returns self changed ∅ []) as (affected & ->). simpl.
    set (found := records_per_position (transformations self) changed).
    destruct ((10 <? size affected) || (5 <? length found)) eqn:Hhigh;
      [|destruct ((5 <? size affected) || (2 <? length found)) eqn:Hmed];
      eexists; (split; [reflexivity|]); simpl; rewrite length_set_iter.
    + left. apply orb_true_iff in Hhigh. rewrite !Nat.ltb_lt in Hhigh. done.
    + right; left. apply orb_false_iff in Hhigh. apply orb_true_iff in Hmed.
      rewrite !Nat.ltb_lt in Hmed. rewrite !Nat.ltb_ge in Hhigh. split_and!; [done|lia|done|done].
    + right; right. apply orb_false_iff in Hhigh. apply orb_false_iff in Hmed.
      rewrite !Nat.ltb_ge in Hhigh, Hmed. split_and!; [done|lia|lia|done].
  - unfold analyze_impact. simpl. by rewrite set_iter_empty.
Qed.

Lemma filter_changed_elements (changed sources : list string) :
  NoDup changed →
  elements ((list_to_set changed : gset string) ∩ list_to_set sources)
  ≡ₚ filter (λ s, s ∈ sources) changed.
Proof.
  intros Hnd. apply NoDup_Permutation.
  - apply NoDup_elements.
  - by apply NoDup_filter.
  - intros s. rewrite elem_of_elements, list_elem_of_filter. set_solver.
Qed.

(** Exchanging the loop over the changed assets with the scan of the log. *)
Lemma records_exchange (log : list DataTransformation) : ∀ changed : list string,
  (s ← changed; t ← filter (λ t, s ∈ source_assets t) log; [record_of t s])
  ≡ₚ (t ← log; s ← filter (λ s, s ∈ source_assets t) changed; [record_of t s]).
Proof.
  induction changed as [|s changed IH].
  - simpl. induction log as [|t log IHlog]; [done|]. by rewrite bind_cons.
  - rewrite bind_cons, IH. clear IH.
    induction log as [|t log IHlog]; [done|].
    rewrite filter_cons, !(bind_cons _ t log), <- IHlog, (filter_cons _ s changed).
    destruct (decide (s ∈ source_assets t)).
    + rewrite !bind_cons. simpl. apply Permutation_skip.
      rewrite !app_assoc. apply Permutation_app_tail, Permutation_app_comm.
    + rewrite !app_assoc. apply Permutation_app_tail, Permutation_app_comm.
Qed.

Lemma records_per_position_pair log changed :
  NoDup changed → records_per_position log changed ≡ₚ records_per_pair log changed.
Proof.
  intros Hnd. unfold records_per_position, records_per_pair.
  rewrite (records_exchange log changed).
  induction log as [|t log IH]; [done|].
  rewrite !(bind_cons _ t log), IH.
  apply Permutation_app_tail.
  by rewrite (filter_changed_elements changed (source_assets t)).
Qed.

(** C7, as amended. The affected transformations are, in order, one record
    per position of [changed] and logged transformation whose source list
    holds the entry at that position; when no entry of [changed] is
    repeated, that is exactly one record per pair of a logged transformation
    and a source of it that is in [changed]. *)
Theorem affected_transformations_records :
  ∀ (self : DataLineageTracker) (changed : list string),
    ∃ r, analyze_impact self changed = Some r ∧
         affected_transformations r = records_per_position (transformations self) changed ∧
         (NoDup changed →
          affected_transformations r ≡ₚ records_per_pair (transformations self) changed).
Proof.
  intros self changed. unfold analyze_impact.
  destruct (impact_loop_returns self changed ∅ []) as (affected & ->). simpl.
  destruct ((10 <? size affected) || _); [|destruct ((5 <? size affected) || _)];
    eexists; (split; [reflexivity|]); simpl; split; try done;
    apply records_per_position_pair.
Qed.

End Impact.

(** C7, witness: in the scenario, a single changed asset gives the single
    record of its one pair. *)
Lemma affected_transformations_records_witness :
  ∃ r, analyze_impact (order := elements_order) scenario_tracker ["bronze.t1"] = Some r ∧
       affected_transformations r
       ≡ₚ records_per_pair (transformations scenario_tracker) ["bronze.t1"].
Proof.
  destruct (affected_transformations_records (order := elements_order)
              scenario_tracker ["bronze.t1"]) as (r & Hr & _ & Hpair).
  exists r. split; [exact Hr|]. apply Hpair.
  apply NoDup_cons. split; [apply not_elem_of_nil | apply NoDup_nil_2].
Defined.

(** C7, as stated, fails when an entry of [changed] is repeated: the pair of
    the scenario's transformation and [bronze.t1] gets two records. *)
Lemma affected_transformations_repeated_entry :
  let changed := ["bronze.t1"; "bronze.t1"] in
  let record := record_of scenario_transformation "bronze.t1" in
  affected_transformations <$> analyze_impact (order := elements_order) scenario_tracker changed
    = Some [record; record] ∧
  records_per_pair (transformations scenario_tracker) changed = [record] ∧
  ¬ ([record; record] ≡ₚ [record]).
Proof.
  split_and!; [by vm_compute | by vm_compute |].
  intros Hperm. by apply Permutation_length in Hperm.
Qed.

(** ** Diagram formats *)

(** C9. [generate_lineage_diagram] returns the text of the Mermaid diagram
    for ['mermaid'] and of the DOT diagram for ['dot']; for every other
    format it raises [ValueError] and returns no text. *)
Theorem generate_lineage_diagram_formats :
  ∀ (self : DataLineageTracker) (output_format : string),
    match generate_lineage_diagram self output_format with
    | Returned text =>
        (output_format = "mermaid" ∧ text = _generate_mermaid_diagram self) ∨
        (output_format = "dot" ∧ text = _generate_dot_diagram self)
    | Raised e =>
        output_format ≠ "mermaid" ∧ output_format ≠ "dot" ∧
        e = ValueError ("Unsupported output format: " +:+ output_format)
    end.
Proof.
  intros self output_format. unfold generate_lineage_diagram.
  repeat case_decide; auto.
Qed.

(** ** Rebuilding the adjacency maps *)

(** C2, at the failing input. After [add_transformation] of [a -> b] on the
    empty tracker the incremental maps hold the edge, but
    [_rebuild_dependency_graphs] raises [KeyError] at its first subscript,
    leaving both maps empty: unlike [add_transformation] it creates no entry
    for an endpoint that is not a registered asset. *)
Theorem rebuild_raises_on_unregistered_endpoint :
  dependencies unregistered_tracker = {[ "b" := {[ "a" ]} ]} ∧
  downstream unregistered_tracker = {[ "a" := {[ "b" ]} ]} ∧
  _rebuild_dependency_graphs unregistered_tracker
  = (Raised (KeyError "b"),
     {| assets := []; transformations := [link "a" "b"];
        dependencies := ∅; downstream := ∅ |}).
Proof. split_and!; by vm_compute. Qed.

(** ** Saving and loading *)

Section Persistence.
Implicit Types (self : DataLineageTracker).

Lemma strings_of_JStr (l : list string) : strings_of (JStr <$> l) = Returned l.
Proof. induction l as [|s l IH]; csimpl; [done|]. by rewrite IH. Qed.

Lemma DataAsset_init_asdict (asset : DataAsset) :
  DataAsset_init (asdict_asset asset) = Returned asset.
Proof.
  destruct asset as [n ty sc de cd lm ow tg].
  unfold DataAsset_init, asdict_asset. cbn.
  decide_keys. cbn. decide_keys. cbn.
  rewrite strings_of_JStr. by destruct de, cd, lm, ow.
Qed.

Lemma DataTransformation_init_asdict (transformation : DataTransformation) :
  DataTransformation_init (asdict_transformation transformation) = Returned transformation.
Proof.
  destruct transformation as [sa ta tt tl cd cb].
  unfold DataTransformation_init, asdict_transformation. cbn.
  decide_keys. cbn. decide_keys. cbn.
  by rewrite strings_of_JStr.
Qed.

Lemma dict_set_fresh {V} (k : string) (v : V) d :
  k ∉ d.*1 → dict_set k v d = d ++ [(k, v)].
Proof.
  induction d as [|[k' v'] d IH]; intros Hk; simpl; [done|].
  rewrite fmap_cons, not_elem_of_cons in Hk. destruct Hk as [Hne Hk].
  rewrite decide_False by done. by rewrite IH.
Qed.

Lemma dict_set_keys {V} (k : string) (v : V) d :
  ∀ k', k' ∈ (dict_set k v d).*1 ↔ k' = k ∨ k' ∈ d.*1.
Proof.
  induction d as [|[k0 v0] d IH]; intros k'; simpl.
  - set_solver.
  - case_decide as Heq; simpl; [subst; set_solver|].
    rewrite !elem_of_cons, IH. naive_solver.
Qed.

Lemma dict_set_NoDup {V} (k : string) (v : V) d :
  NoDup d.*1 → NoDup (dict_set k v d).*1.
Proof.
  induction d as [|[k0 v0] d IH]; intros Hnd; simpl.
  - apply NoDup_singleton.
  - simpl in Hnd. apply NoDup_cons in Hnd as [Hk0 Hnd].
    case_decide as Heq; simpl.
    + subst. by apply NoDup_cons.
    + apply NoDup_cons. split; [|by apply IH].
      rewrite dict_set_keys. naive_solver.
Qed.

(** Storing the entries of a dictionary, in its order, into another one
    with other keys appends them. *)
Lemma dict_set_all {V} (l : list (string * V)) : ∀ d,
  NoDup (d ++ l).*1 →
  foldl (λ d kv, dict_set kv.1 kv.2 d) d l = d ++ l.
Proof.
  induction l as [|[k v] l IH]; intros d Hnd; simpl; [by rewrite app_nil_r|].
  rewrite dict_set_fresh.
  - rewrite IH; rewrite <- app_assoc; done.
  - rewrite fmap_app in Hnd. apply NoDup_app in Hnd as (_ & Hdis & _).
    intros Hin. apply (Hdis k Hin). simpl. set_solver.
Qed.

Lemma load_assets_loop (l : list (string * DataAsset)) : ∀ self,
  for_each (prod_map id asdict_asset <$> l)
    (λ '(asset_key, asset_data),
       asset <- of_outcome (DataAsset_init asset_data) ;;
       update (λ self, set_assets (dict_set asset_key asset (assets self)) self))%method self
  = (Returned tt,
     set_assets (foldl (λ d kv, dict_set kv.1 kv.2 d) (assets self) l) self).
Proof.
  induction l as [|[k a] l IH]; intros self; simpl.
  - by destruct self.
  - unfold bind, of_outcome at 1, update at 1. simpl.
    rewrite DataAsset_init_asdict. rewrite IH. by destruct self.
Qed.

Lemma load_transformations_loop (l : list DataTransformation) : ∀ self,
  for_each (asdict_transformation <$> l)
    (λ transform_data,
       transformation <- of_outcome (DataTransformation_init transform_data) ;;
       update (λ self, set_transformations (transformations self ++ [transformation]) self))%method
    self
  = (Returned tt, set_transformations (transformations self ++ l) self).
Proof.
  induction l as [|t l IH]; intros self; simpl.
  - rewrite app_nil_r. by destruct self.
  - unfold bind, of_outcome at 1, update at 1. simpl.
    rewrite DataTransformation_init_asdict. rewrite IH. destruct self; simpl.
    unfold set_transformations; simpl. by rewrite <- app_assoc.
Qed.

(** The rebuild reads the registry and the log only. *)
Lemma rebuild_from_registry self :
  _rebuild_dependency_graphs self
  = _rebuild_dependency_graphs
      {| assets := assets self; transformations := transformations self;
         dependencies := ∅; downstream := ∅ |}.
Proof. reflexivity. Qed.

Lemma keeps_registry_bind {A B} (m : method A) (k : A → method B) :
  keeps_registry m → (∀ a, keeps_registry (k a)) → keeps_registry (bind m k).
Proof.
  intros Hm Hk self. unfold bind. specialize (Hm self).
  destruct (m self) as [[a|e] self']; simpl in *; [|done].
  destruct (Hk a self') as [-> ->]. done.
Qed.

Lemma keeps_registry_for_each {A} (xs : list A) (body : A → method unit) :
  (∀ x, keeps_registry (body x)) → keeps_registry (for_each xs body).
Proof.
  intros Hbody. induction xs as [|x xs IH]; simpl; [done|].
  apply keeps_registry_bind; [apply Hbody | done].
Qed.

Lemma keeps_registry_dependencies_add key x : keeps_registry (dependencies_add key x).
Proof.
  intros self. unfold dependencies_add, bind, get_self. simpl.
  by destruct (dependencies self !! key).
Qed.

Lemma keeps_registry_downstream_add key x : keeps_registry (downstream_add key x).
Proof.
  intros self. unfold downstream_add, bind, get_self. simpl.
  by destruct (downstream self !! key).
Qed.

Lemma rebuild_keeps_registry : keeps_registry _rebuild_dependency_graphs.
Proof.
  unfold _rebuild_dependency_graphs.
  repeat first
    [ apply keeps_registry_dependencies_add
    | apply keeps_registry_downstream_add
    | apply keeps_registry_for_each; intros ?
    | apply keeps_registry_bind; [|intros ?]
    | done ].
Qed.

Lemma bind_returned {A B} (m : method A) (k : A → method B) self a self' :
  m self = (Returned a, self') → bind m k self = k a self'.
Proof. intros Hm. unfold bind. by rewrite Hm. Qed.

Lemma load_saved now self :
  NoDup (assets self).*1 →
  new_tracker (Document (save_lineage now self)) = (_rebuild_dependency_graphs self).2.
Proof.
  intros Hnd. unfold new_tracker, load_lineage, try_except, load_document, save_lineage.
  erewrite bind_returned;
    [|unfold of_outcome, json_get; cbn [dict_get]; decide_keys; reflexivity].
  erewrite bind_returned; [|reflexivity].
  erewrite bind_returned; [|apply load_assets_loop].
  erewrite bind_returned;
    [|unfold of_outcome, json_get; cbn [dict_get]; decide_keys; reflexivity].
  erewrite bind_returned; [|reflexivity].
  erewrite bind_returned; [|apply load_transformations_loop].
  rewrite rebuild_from_registry. simpl.
  rewrite dict_set_all by done. simpl.
  rewrite <- rebuild_from_registry.
  by destruct (_rebuild_dependency_graphs _) as [[[]|e] after].
Qed.

(** C8. For a tracker whose registry is a dictionary (distinct keys),
    [save_lineage] followed by the construction of a fresh tracker on the
    saved document gives a registry and a log equal to the original ones,
    asset by asset and transformation by transformation in every field,
    and adjacency maps equal to those that [_rebuild_dependency_graphs]
    leaves on the original tracker. *)
Theorem save_load_round_trip :
  ∀ (now : string) (self : DataLineageTracker),
    NoDup (assets self).*1 →
    let loaded := new_tracker (Document (save_lineage now self)) in
    let rebuilt := (_rebuild_dependency_graphs self).2 in
    assets loaded = assets self ∧
    transformations loaded = transformations self ∧
    dependencies loaded = dependencies rebuilt ∧
    downstream loaded = downstream rebuilt.
Proof.
  intros now self Hnd loaded rebuilt. unfold loaded, rebuilt.
  rewrite load_saved by done.
  destruct (rebuild_keeps_registry self) as [Ha Ht]. done.
Qed.

End Persistence.

(** C8, witness: the scenario's tracker, saved and loaded. *)
Lemma save_load_round_trip_witness :
  NoDup (assets scenario_tracker).*1 ∧
  let loaded := new_tracker (Document (save_lineage "2024-01-01T00:00:00" scenario_tracker)) in
  let rebuilt := (_rebuild_dependency_graphs scenario_tracker).2 in
  assets loaded = assets scenario_tracker ∧
  transformations loaded = transformations scenario_tracker ∧
  dependencies loaded = dependencies rebuilt ∧
  downstream loaded = downstream rebuilt.
Proof.
  assert (NoDup (assets scenario_tracker).*1) as Hnd.
  { apply (bool_decide_unpack _). vm_compute. exact I. }
  split; [exact Hnd|].
  exact (save_load_round_trip "2024-01-01T00:00:00" scenario_tracker Hnd).
Defined.

(** ** When the rebuild reproduces the incremental maps *)

Section Rebuild.
Implicit Types (graph : gmap string (gset string)) (self : DataLineageTracker)
  (graphs : gmap string (gset string) * gmap string (gset string))
  (log : list DataTransformation).

Lemma add_edges_dependencies target sources : ∀ graphs k,
  (foldl (add_edge target) graphs sources).1 !! k =
    if decide (target = k) then (λ members, members ∪ list_to_set sources) <$> graphs.1 !! k
    else graphs.1 !! k.
Proof.
  induction sources as [|s sources IH]; intros graphs k; simpl.
  - case_decide; [|done]. destruct (graphs.1 !! k) as [m|]; simpl; [|done].
    f_equal. set_solver.
  - rewrite IH. destruct graphs as [deps down]; simpl. rewrite add_member_lookup.
    case_decide; [|done]. destruct (deps !! k) as [m|]; simpl; [|done].
    f_equal. set_solver.
Qed.

Lemma add_edges_downstream target sources : ∀ graphs k,
  (foldl (add_edge target) graphs sources).2 !! k =
    if decide (k ∈ sources) then Some (get_or_empty graphs.2 k ∪ {[target]})
    else graphs.2 !! k.
Proof.
  induction sources as [|s sources IH]; intros graphs k; simpl.
  - done.
  - rewrite IH. destruct graphs as [deps down]; simpl. unfold get_or_empty.
    rewrite add_member_lookup, ensure_key_lookup.
    destruct (down !! k) as [m|] eqn:Hk; simpl;
      repeat case_decide; simplify_eq/=; try done; try (f_equal; set_solver); set_solver.
Qed.

Lemma transformation_edges_dependencies t graphs k :
  (transformation_edges t graphs).1 !! k =
    if decide (target_asset t = k)
    then Some (get_or_empty graphs.1 k ∪ list_to_set (source_assets t))
    else graphs.1 !! k.
Proof.
  unfold transformation_edges. rewrite add_edges_dependencies. simpl.
  rewrite ensure_key_lookup. unfold get_or_empty.
  case_decide as Heq; by destruct (graphs.1 !! k).
Qed.

Lemma transformation_edges_downstream t graphs k :
  (transformation_edges t graphs).2 !! k =
    if decide (k ∈ source_assets t) then Some (get_or_empty graphs.2 k ∪ {[target_asset t]})
    else graphs.2 !! k.
Proof. unfold transformation_edges. by rewrite add_edges_downstream. Qed.

Lemma add_transformation_edges t self :
  add_transformation t self
  = {| assets := assets self;
       transformations := transformations self ++ [t];
       dependencies := (transformation_edges t (dependencies self, downstream self)).1;
       downstream := (transformation_edges t (dependencies self, downstream self)).2 |}.
Proof. reflexivity. Qed.

Lemma sources_into_snoc log t k :
  sources_into (log ++ [t]) k =
    sources_into log k ∪
    (if decide (target_asset t = k) then list_to_set (source_assets t) else ∅).
Proof.
  unfold sources_into. rewrite fmap_app, union_list_app_L. simpl.
  by rewrite (right_id_L ∅ (∪)).
Qed.

Lemma targets_from_snoc log t k :
  targets_from (log ++ [t]) k =
    targets_from log k ∪ (if decide (k ∈ source_assets t) then {[target_asset t]} else ∅).
Proof.
  unfold targets_from. rewrite fmap_app, union_list_app_L. simpl.
  by rewrite (right_id_L ∅ (∪)).
Qed.

Lemma all_targets_snoc log t : all_targets (log ++ [t]) = all_targets log ∪ {[target_asset t]}.
Proof. unfold all_targets. rewrite fmap_app, list_to_set_app_L. simpl. set_solver. Qed.

Lemma all_sources_snoc log t :
  all_sources (log ++ [t]) = all_sources log ∪ list_to_set (source_assets t).
Proof.
  unfold all_sources. rewrite fmap_app, union_list_app_L. simpl.
  by rewrite (right_id_L ∅ (∪)).
Qed.

Lemma sources_into_no_target log k : k ∉ all_targets log → sources_into log k = ∅.
Proof.
  unfold all_targets, sources_into. induction log as [|t log IH]; intros Hk; [done|].
  csimpl in *. rewrite not_elem_of_union, not_elem_of_singleton in Hk. destruct Hk as [Hne Hk].
  rewrite decide_False by done. rewrite IH by done. set_solver.
Qed.

Lemma targets_from_no_source log k : k ∉ all_sources log → targets_from log k = ∅.
Proof.
  unfold all_sources, targets_from. induction log as [|t log IH]; intros Hk; [done|].
  csimpl in *. rewrite not_elem_of_union, elem_of_list_to_set in Hk. destruct Hk as [Hne Hk].
  rewrite decide_False by done. rewrite IH by done. set_solver.
Qed.

Lemma graphs_of_unique keys log graphs graphs' :
  graphs_of keys log graphs → graphs_of keys log graphs' → graphs = graphs'.
Proof.
  destruct graphs as [d w], graphs' as [d' w']. intros [Hd Hw] [Hd' Hw']. simpl in *.
  f_equal; apply map_eq; intros k; [by rewrite Hd, Hd' | by rewrite Hw, Hw'].
Qed.

Lemma graphs_of_transformation keys log t graphs :
  graphs_of keys log graphs → graphs_of keys (log ++ [t]) (transformation_edges t graphs).
Proof.
  intros [Hd Hw]. split; intros k.
  - rewrite transformation_edges_dependencies, sources_into_snoc, all_targets_snoc.
    unfold get_or_empty. rewrite Hd. destruct (decide (target_asset t = k)) as [Heq|Hne].
    + rewrite (decide_True (P := k ∈ _ ∪ (_ ∪ _))) by set_solver. f_equal.
      case_decide; [done|]. simpl. rewrite sources_into_no_target by set_solver. done.
    + rewrite (right_id_L ∅ (∪)). repeat case_decide; try done; set_solver.
  - rewrite transformation_edges_downstream, targets_from_snoc, all_sources_snoc.
    unfold get_or_empty. rewrite Hw. destruct (decide (k ∈ source_assets t)) as [Hin|Hnin].
    + rewrite (decide_True (P := k ∈ _ ∪ (_ ∪ _))) by set_solver. f_equal.
      case_decide; [done|]. simpl. rewrite targets_from_no_source by set_solver. done.
    + rewrite (right_id_L ∅ (∪)). repeat case_decide; try done; set_solver.
Qed.

Lemma graphs_of_key keys log key graphs :
  graphs_of keys log graphs →
  graphs_of (keys ∪ {[key]}) log (ensure_key key graphs.1, ensure_key key graphs.2).
Proof.
  intros [Hd Hw]. split; intros k; simpl; rewrite ensure_key_lookup.
  - rewrite Hd. repeat case_decide; try done; try set_solver.
    subst. rewrite sources_into_no_target by set_solver. done.
  - rewrite Hw. repeat case_decide; try done; try set_solver.
    subst. rewrite targets_from_no_source by set_solver. done.
Qed.

Lemma dict_set_key_set {V} (k : string) (v : V) d :
  (list_to_set (dict_set k v d).*1 : gset string) = list_to_set d.*1 ∪ {[k]}.
Proof.
  apply set_eq. intros k'. rewrite elem_of_list_to_set, dict_set_keys. set_solver.
Qed.

Lemma consistent_empty : consistent empty_tracker.
Proof. split; intros k; simpl; by rewrite lookup_empty. Qed.

Lemma consistent_add_asset asset self : consistent self → consistent (add_asset asset self).
Proof.
  intros H. unfold consistent, add_asset. simpl. rewrite dict_set_key_set.
  by apply (graphs_of_key _ _ _ (dependencies self, downstream self)).
Qed.

Lemma consistent_add_transformation t self :
  consistent self → consistent (add_transformation t self).
Proof.
  intros H. unfold consistent. rewrite add_transformation_edges. simpl.
  rewrite <- surjective_pairing. by apply graphs_of_transformation.
Qed.

(** The maps built by any sequence of calls are a function of the
    registered keys and the log, whatever the order of the calls. *)
Lemma consistent_do_calls cs : ∀ self, consistent self → consistent (do_calls self cs).
Proof.
  induction cs as [|c cs IH]; intros self H; [done|]. simpl. apply IH.
  destruct c; [by apply consistent_add_asset | by apply consistent_add_transformation].
Qed.

Lemma init_entries_lookup keys : ∀ graph k,
  init_entries keys graph !! k = if decide (k ∈ keys) then Some ∅ else graph !! k.
Proof.
  unfold init_entries. induction keys as [|key keys IH]; intros graph k; simpl; [done|].
  rewrite IH, lookup_insert. repeat case_decide; try done; set_solver.
Qed.

Lemma rebuild_init_loop keys : ∀ self,
  for_each keys
    (λ asset_key,
       update (λ self, set_dependencies (<[asset_key := ∅]> (dependencies self)) self) ;;
       update (λ self, set_downstream (<[asset_key := ∅]> (downstream self)) self))%method self
  = (Returned tt,
     {| assets := assets self; transformations := transformations self;
        dependencies := init_entries keys (dependencies self);
        downstream := init_entries keys (downstream self) |}).
Proof.
  induction keys as [|key keys IH]; intros self; simpl; [by destruct self|].
  unfold bind at 1. unfold bind at 1. unfold update at 1 2. by rewrite IH.
Qed.

Lemma insert_add_member graph key x members :
  graph !! key = Some members → <[key := members ∪ {[x]}]> graph = add_member key x graph.
Proof.
  intros Hkey. apply map_eq. intros k. rewrite add_member_lookup, lookup_insert.
  case_decide; [subst; by rewrite Hkey | done].
Qed.

Lemma dependencies_add_present key x self :
  is_Some (dependencies self !! key) →
  dependencies_add key x self
  = (Returned tt, set_dependencies (add_member key x (dependencies self)) self).
Proof.
  intros [m Hm]. unfold dependencies_add, bind, get_self. rewrite Hm.
  unfold update. by rewrite (insert_add_member _ _ _ _ Hm).
Qed.

Lemma downstream_add_present key x self :
  is_Some (downstream self !! key) →
  downstream_add key x self
  = (Returned tt, set_downstream (add_member key x (downstream self)) self).
Proof.
  intros [m Hm]. unfold downstream_add, bind, get_self. rewrite Hm.
  unfold update. by rewrite (insert_add_member _ _ _ _ Hm).
Qed.

Lemma ensure_key_id graph key : is_Some (graph !! key) → ensure_key key graph = graph.
Proof. intros [m Hm]. unfold ensure_key. by rewrite Hm. Qed.

(** With its endpoints present, the inner loop of the rebuild adds the
    edges that [add_transformation] adds. *)
Lemma rebuild_edges_loop target sources : ∀ self,
  is_Some (dependencies self !! target) →
  (∀ s, s ∈ sources → is_Some (downstream self !! s)) →
  for_each sources
    (λ source, dependencies_add target source ;; downstream_add source target)%method self
  = (Returned tt,
     {| assets := assets self; transformations := transformations self;
        dependencies := (foldl (add_edge target) (dependencies self, downstream self) sources).1;
        downstream := (foldl (add_edge target) (dependencies self, downstream self) sources).2 |}).
Proof.
  induction sources as [|s sources IH]; intros self Ht Hs; simpl; [by destruct self|].
  assert (is_Some (downstream self !! s)) as Hpresent by (apply Hs; set_solver).
  erewrite bind_returned; cycle 1.
  { erewrite bind_returned; [|by apply dependencies_add_present].
    by apply downstream_add_present. }
  rewrite IH; simpl.
  - assert (add_edge target (dependencies self, downstream self) s
            = (add_member target s (dependencies self),
               add_member s target (downstream self))) as ->; [|done].
    unfold add_edge. simpl. by rewrite (ensure_key_id _ _ Hpresent).
  - by apply add_member_present.
  - intros s' Hs'. apply add_member_present, Hs. set_solver.
Qed.

Lemma transformation_edges_present t graphs k :
  (is_Some (graphs.1 !! k) → is_Some ((transformation_edges t graphs).1 !! k)) ∧
  (is_Some (graphs.2 !! k) → is_Some ((transformation_edges t graphs).2 !! k)).
Proof.
  rewrite transformation_edges_dependencies, transformation_edges_downstream.
  split; intros H; case_decide; eauto.
Qed.

Lemma rebuild_log_loop (keys : gset string) log : ∀ self,
  (∀ t, t ∈ log → target_asset t ∈ keys ∧ ∀ s, s ∈ source_assets t → s ∈ keys) →
  (∀ k, k ∈ keys → is_Some (dependencies self !! k) ∧ is_Some (downstream self !! k)) →
  for_each log
    (λ transformation,
       let target := target_asset transformation in
       for_each (source_assets transformation)
         (λ source, dependencies_add target source ;; downstream_add source target))%method self
  = (Returned tt,
     {| assets := assets self; transformations := transformations self;
        dependencies :=
          (foldl (λ g t, transformation_edges t g) (dependencies self, downstream self) log).1;
        downstream :=
          (foldl (λ g t, transformation_edges t g) (dependencies self, downstream self) log).2
     |}).
Proof.
  induction log as [|t log IH]; intros self Hreg Hpresent; simpl; [by destruct self|].
  destruct (Hreg t) as [Htarget Hsources]; [set_solver|].
  erewrite bind_returned; cycle 1.
  { apply rebuild_edges_loop; [by apply Hpresent|].
    intros s Hs. by apply Hpresent, Hsources. }
  assert (transformation_edges t (dependencies self, downstream self)
          = foldl (add_edge (target_asset t)) (dependencies self, downstream self)
              (source_assets t)) as Hedges.
  { unfold transformation_edges. simpl. rewrite ensure_key_id; [done | by apply Hpresent]. }
  rewrite IH; simpl.
  - rewrite <- Hedges, <- surjective_pairing. done.
  - intros t' Ht'. apply Hreg. set_solver.
  - intros k Hk. rewrite <- Hedges.
    destruct (transformation_edges_present t (dependencies self, downstream self) k) as [P1 P2].
    destruct (Hpresent k Hk). split; [by apply P1 | by apply P2].
Qed.

Lemma graphs_of_log keys log : ∀ done_log graphs,
  graphs_of keys done_log graphs →
  graphs_of keys (done_log ++ log) (foldl (λ g t, transformation_edges t g) graphs log).
Proof.
  induction log as [|t log IH]; intros done_log graphs H; simpl.
  - by rewrite app_nil_r.
  - rewrite (cons_middle t), app_assoc. by apply IH, graphs_of_transformation.
Qed.

(** On a tracker whose maps are the ones of its registry and log and whose
    logged transformations have registered endpoints, the rebuild returns
    and leaves every attribute as it is. *)
Lemma rebuild_of_registered self :
  consistent self → endpoints_registered self →
  _rebuild_dependency_graphs self = (Returned tt, self).
Proof.
  intros Hcons Hreg. unfold _rebuild_dependency_graphs.
  erewrite bind_returned; [|reflexivity].
  erewrite bind_returned; [|reflexivity].
  erewrite bind_returned; [|reflexivity].
  erewrite bind_returned; [|apply rebuild_init_loop].
  erewrite bind_returned; [|reflexivity].
  rewrite (rebuild_log_loop (list_to_set (assets self).*1)); simpl.
  - match goal with |- context [foldl ?f ?g ?l] => set (rebuilt := foldl f g l) end.
    assert (rebuilt = (dependencies self, downstream self)) as ->; [|by destruct self].
    eapply graphs_of_unique; [|exact Hcons].
    apply (graphs_of_log _ _ []). split; intros k; simpl; rewrite init_entries_lookup.
    + unfold all_targets, sources_into. simpl. rewrite lookup_empty.
      repeat case_decide; try done; set_solver.
    + unfold all_sources, targets_from. simpl. rewrite lookup_empty.
      repeat case_decide; try done; set_solver.
  - intros t Ht. destruct (Hreg t Ht) as [H1 H2]. split; [set_solver|].
    intros s Hs. apply elem_of_list_to_set. by apply H2.
  - intros k Hk%elem_of_list_to_set. rewrite !init_entries_lookup.
    rewrite !decide_True by done. eauto.
Qed.

(** X11. After any sequence of [add_asset] and [add_transformation] calls
    on a new tracker, in any order, that registers every endpoint of every
    added transformation, the rebuild returns and reproduces the maps built
    by the calls. *)
Theorem rebuild_reproduces_registered_calls (cs : list call) :
  endpoints_registered (do_calls empty_tracker cs) →
  _rebuild_dependency_graphs (do_calls empty_tracker cs)
  = (Returned tt, do_calls empty_tracker cs).
Proof.
  intros Hreg. apply rebuild_of_registered; [|done].
  apply consistent_do_calls, consistent_empty.
Qed.

End Rebuild.

(** ** Examples *)

(** The registry of a tracker built by calls is a dictionary. *)
Lemma do_calls_registry cs : ∀ self,
  NoDup (assets self).*1 → NoDup (assets (do_calls self cs)).*1.
Proof.
  induction cs as [|c cs IH]; intros self Hnd; [done|]. simpl. apply IH.
  destruct c; simpl; [by apply dict_set_NoDup | done].
Qed.

(** X26. For a tracker built by calls that register every endpoint, saving
    and constructing a new tracker on the document restores every attribute:
    registry, log and both adjacency maps. *)
Lemma save_load_restores_registered_calls now (cs : list call) :
  endpoints_registered (do_calls empty_tracker cs) →
  new_tracker (Document (save_lineage now (do_calls empty_tracker cs)))
  = do_calls empty_tracker cs.
Proof.
  intros Hreg. rewrite load_saved.
  - rewrite rebuild_of_registered; [done | | done].
    apply consistent_do_calls, consistent_empty.
  - apply do_calls_registry. simpl. apply NoDup_nil_2.
Qed.

Lemma scenario_registered : endpoints_registered scenario_tracker.
Proof.
  intros t Ht. assert (t = scenario_transformation) as ->.
  { vm_compute in Ht. by apply list_elem_of_singleton in Ht. }
  split; [vm_compute; set_solver|]. intros s Hs.
  vm_compute in Hs. apply list_elem_of_singleton in Hs as ->. vm_compute. set_solver.
Qed.

(** X11, witness: in the scenario every endpoint is registered. *)
Lemma rebuild_reproduces_registered_calls_witness :
  _rebuild_dependency_graphs scenario_tracker = (Returned tt, scenario_tracker).
Proof.
  exact (rebuild_reproduces_registered_calls
           [ AddAsset (scenario_asset "bronze"); AddAsset (scenario_asset "silver");
             AddTransformation scenario_transformation ]
           scenario_registered).
Defined.

(** X26, witness: the scenario's tracker. *)
Lemma save_load_restores_registered_calls_witness :
  new_tracker (Document (save_lineage "2024-01-01T00:00:00" scenario_tracker))
  = scenario_tracker.
Proof.
  exact (save_load_restores_registered_calls "2024-01-01T00:00:00"
           [ AddAsset (scenario_asset "bronze"); AddAsset (scenario_asset "silver");
             AddTransformation scenario_transformation ]
           scenario_registered).
Defined.

(** The scenario's closures, in the enumeration order [elements]. *)
Lemma scenario_closures :
  get_upstream_dependencies (order := elements_order) scenario_tracker "silver.t1"
    = Some {["bronze.t1"]} ∧
  get_downstream_impact (order := elements_order) scenario_tracker "bronze.t1"
    = Some {["silver.t1"]}.
Proof. split; by vm_compute. Qed.

(** On the cycle [A -> B], [B -> A] both queries return, with both keys:
    each node is reached from itself. *)
Lemma cyclic_closures :
  get_upstream_dependencies (order := elements_order) cyclic_tracker "A" = Some {["A"; "B"]} ∧
  get_downstream_impact (order := elements_order) cyclic_tracker "A" = Some {["A"; "B"]} ∧
  get_lineage_path (order := elements_order) cyclic_tracker "A" "B" = Some ["A"; "B"] ∧
  get_lineage_path (order := elements_order) cyclic_tracker "B" "C" = Some [].
Proof. split_and!; by vm_compute. Qed.

(** [load_lineage] appends to the log: called again on a tracker that its
    constructor has already loaded, it doubles the log. *)
Lemma load_again_doubles_log :
  let file := Document (save_lineage "2024-01-01T00:00:00" scenario_tracker) in
  transformations (load_lineage file (new_tracker file)).2
  = [scenario_transformation; scenario_transformation].
Proof. by vm_compute. Qed.

(** * Further properties of the tracker *)

(** ** The registry *)

Section Registry.
Implicit Types (self : DataLineageTracker) (graph : gmap string (gset string)).

Lemma dict_get_set_eq {V} (k : string) (v : V) d : dict_get k (dict_set k v d) = Some v.
Proof.
  induction d as [|[k0 v0] d IH]; simpl; [by rewrite decide_True|].
  destruct (decide (k = k0)) as [->|Hne]; simpl.
  - by rewrite decide_True.
  - by rewrite decide_False.
Qed.

Lemma dict_get_set_ne {V} (k k' : string) (v : V) d :
  k' ≠ k → dict_get k' (dict_set k v d) = dict_get k' d.
Proof.
  intros Hne. induction d as [|[k0 v0] d IH]; simpl; [by rewrite decide_False|].
  destruct (decide (k = k0)) as [->|Hne0]; simpl.
  - by rewrite !decide_False.
  - by rewrite IH.
Qed.

Lemma dict_set_key_list {V} (k : string) (v : V) d :
  (dict_set k v d).*1 = if decide (k ∈ d.*1) then d.*1 else d.*1 ++ [k].
Proof.
  induction d as [|[k0 v0] d IH]; csimpl; [done|].
  destruct (decide (k = k0)) as [->|Hne]; csimpl.
  - rewrite decide_True; [done | apply list_elem_of_here].
  - rewrite IH. destruct (decide (k ∈ d.*1)) as [Hin|Hnin].
    + rewrite decide_True; [done | by apply list_elem_of_further].
    + rewrite decide_False; [done|]. rewrite not_elem_of_cons. done.
Qed.

(** X1. After [add_asset], the registry returns the asset under its key
    [schema.name] and what it held under every other key; the key has an
    entry in both adjacency maps; the entries that were there are as they
    were (a registered asset's edges are not reset), and the log is
    untouched. *)
Theorem add_asset_then_lookup :
  ∀ (asset : DataAsset) (self : DataLineageTracker),
    let key := asset_key_of asset in
    let after := add_asset asset self in
    dict_get key (assets after) = Some asset ∧
    (∀ k, k ≠ key → dict_get k (assets after) = dict_get k (assets self)) ∧
    is_Some (dependencies after !! key) ∧
    is_Some (downstream after !! key) ∧
    (∀ k members, dependencies self !! k = Some members →
                  dependencies after !! k = Some members) ∧
    (∀ k members, downstream self !! k = Some members →
                  downstream after !! k = Some members) ∧
    transformations after = transformations self.
Proof.
  intros asset self key after. unfold after, add_asset. simpl. split_and!.
  - apply dict_get_set_eq.
  - intros k Hk. by apply dict_get_set_ne.
  - apply ensure_key_present.
  - apply ensure_key_present.
  - intros k m Hm. by rewrite ensure_key_lookup, Hm.
  - intros k m Hm. by rewrite ensure_key_lookup, Hm.
  - done.
Qed.

(** X2. [add_asset] under a key that is already registered overwrites in
    place: the keys of the registry and their order stay the same; under a
    new key it appends the key at the end. *)
Theorem add_asset_registry_order :
  ∀ (asset : DataAsset) (self : DataLineageTracker),
    (assets (add_asset asset self)).*1 =
      if decide (asset_key_of asset ∈ (assets self).*1)
      then (assets self).*1
      else (assets self).*1 ++ [asset_key_of asset].
Proof. intros asset self. apply dict_set_key_list. Qed.

Lemma do_call_keeps_present self c k :
  (is_Some (dependencies self !! k) → is_Some (dependencies (do_call self c) !! k)) ∧
  (is_Some (downstream self !! k) → is_Some (downstream (do_call self c) !! k)) ∧
  (k ∈ (assets self).*1 → k ∈ (assets (do_call self c)).*1).
Proof.
  destruct c as [asset|t]; simpl.
  - split_and!; [apply ensure_key_keeps_present..|].
    intros Hk. rewrite dict_set_keys. by right.
  - destruct (transformation_edges_present t (dependencies self, downstream self) k)
      as [H1 H2].
    split_and!; [exact H1 | exact H2 | done].
Qed.

Lemma do_calls_keep_present cs : ∀ self k,
  (is_Some (dependencies self !! k) → is_Some (dependencies (do_calls self cs) !! k)) ∧
  (is_Some (downstream self !! k) → is_Some (downstream (do_calls self cs) !! k)) ∧
  (k ∈ (assets self).*1 → k ∈ (assets (do_calls self cs)).*1).
Proof.
  induction cs as [|c cs IH]; intros self k; [done|]. simpl.
  destruct (IH (do_call self c) k) as (I1 & I2 & I3).
  destruct (do_call_keeps_present self c k) as (C1 & C2 & C3).
  split_and!; eauto.
Qed.

(** X3. No call removes an entry of an adjacency map or a key of the
    registry; so after any sequence of calls from any state, every asset
    that one of the calls registered is a key of the registry and of both
    adjacency maps. *)
Theorem registered_asset_keeps_entries :
  ∀ (self : DataLineageTracker) (before later : list call) (asset : DataAsset),
    let final := do_calls self (before ++ AddAsset asset :: later) in
    asset_key_of asset ∈ (assets final).*1 ∧
    is_Some (dependencies final !! asset_key_of asset) ∧
    is_Some (downstream final !! asset_key_of asset) ∧
    (∀ k, k ∈ (assets self).*1 → k ∈ (assets final).*1) ∧
    (∀ k, is_Some (dependencies self !! k) → is_Some (dependencies final !! k)) ∧
    (∀ k, is_Some (downstream self !! k) → is_Some (downstream final !! k)).
Proof.
  intros self before later asset final.
  pose proof (do_calls_keep_present (before ++ AddAsset asset :: later) self) as Hkeep.
  assert (final = do_calls (add_asset asset (do_calls self before)) later) as Heq.
  { unfold final. by rewrite do_calls_app. }
  destruct (do_calls_keep_present later (add_asset asset (do_calls self before))
              (asset_key_of asset)) as (L1 & L2 & L3).
  split_and!.
  - rewrite Heq. apply L3. simpl. rewrite dict_set_keys. by left.
  - rewrite Heq. apply L1, ensure_key_present.
  - rewrite Heq. apply L2, ensure_key_present.
  - intros k Hk. by apply Hkeep.
  - intros k Hk. by apply Hkeep.
  - intros k Hk. by apply Hkeep.
Qed.

Lemma do_calls_log cs : ∀ self,
  transformations (do_calls self cs) = transformations self ++ added_transformations cs.
Proof.
  induction cs as [|c cs IH]; intros self; simpl; [by rewrite app_nil_r|].
  rewrite IH. destruct c as [asset|t]; simpl; [done|]. by rewrite <- app_assoc.
Qed.

(** X4. The log after a sequence of calls is the log before followed by the
    transformations of the [add_transformation] calls, in call order and
    with repetitions; [add_transformation] never changes the registry. *)
Theorem log_after_calls :
  ∀ (self : DataLineageTracker) (cs : list call),
    transformations (do_calls self cs) = transformations self ++ added_transformations cs ∧
    (∀ t, assets (add_transformation t self) = assets self).
Proof. intros self cs. split; [apply do_calls_log | done]. Qed.

End Registry.

(** ** The adjacency maps as a function of the calls *)

Section Maps.
Implicit Types (self : DataLineageTracker) (graph : gmap string (gset string))
  (log : list DataTransformation).

Lemma elem_of_sources_into log k x :
  x ∈ sources_into log k ↔ ∃ t, t ∈ log ∧ target_asset t = k ∧ x ∈ source_assets t.
Proof.
  unfold sources_into. rewrite elem_of_union_list. split.
  - intros (X & HX & Hx). apply list_elem_of_fmap in HX as (t & -> & Ht).
    case_decide; [|set_solver]. exists t. set_solver.
  - intros (t & Ht & Hk & Hx). eexists. split.
    + apply list_elem_of_fmap. by exists t.
    + simpl. rewrite decide_True by done. set_solver.
Qed.

Lemma elem_of_targets_from log k x :
  x ∈ targets_from log k ↔ ∃ t, t ∈ log ∧ target_asset t = x ∧ k ∈ source_assets t.
Proof.
  unfold targets_from. rewrite elem_of_union_list. split.
  - intros (X & HX & Hx). apply list_elem_of_fmap in HX as (t & -> & Ht).
    case_decide; [|set_solver]. exists t. set_solver.
  - intros (t & Ht & Hk & Hx). eexists. split.
    + apply list_elem_of_fmap. by exists t.
    + simpl. rewrite decide_True by done. set_solver.
Qed.

(** X5. After any sequence of calls on a new tracker, [dependencies] has an
    entry exactly for the registered keys and the targets of the logged
    transformations, holding the sources of the transformations into that
    key; [downstream] has an entry exactly for the registered keys and the
    sources, holding the targets of the transformations from that key. *)
Theorem maps_after_calls :
  ∀ (cs : list call) (k : string),
    let self := do_calls empty_tracker cs in
    let keys : gset string := list_to_set (assets self).*1 in
    let log := transformations self in
    dependencies self !! k =
      (if decide (k ∈ keys ∪ all_targets log) then Some (sources_into log k) else None) ∧
    downstream self !! k =
      (if decide (k ∈ keys ∪ all_sources log) then Some (targets_from log k) else None) ∧
    (∀ x, x ∈ sources_into log k ↔
          ∃ t, t ∈ log ∧ target_asset t = k ∧ x ∈ source_assets t) ∧
    (∀ x, x ∈ targets_from log k ↔
          ∃ t, t ∈ log ∧ target_asset t = x ∧ k ∈ source_assets t).
Proof.
  intros cs k self keys log.
  destruct (consistent_do_calls cs empty_tracker consistent_empty) as [Hd Hw].
  split_and!; [apply Hd | apply Hw | apply elem_of_sources_into | apply elem_of_targets_from].
Qed.

Lemma sources_into_perm log log' k : log ≡ₚ log' → sources_into log k = sources_into log' k.
Proof. intros Hp. unfold sources_into. by rewrite Hp. Qed.

Lemma targets_from_perm log log' k : log ≡ₚ log' → targets_from log k = targets_from log' k.
Proof. intros Hp. unfold targets_from. by rewrite Hp. Qed.

Lemma all_targets_perm log log' : log ≡ₚ log' → all_targets log = all_targets log'.
Proof. intros Hp. unfold all_targets. by rewrite Hp. Qed.

Lemma all_sources_perm log log' : log ≡ₚ log' → all_sources log = all_sources log'.
Proof. intros Hp. unfold all_sources. by rewrite Hp. Qed.

(** X6. The adjacency maps do not depend on the order of the calls: two
    sequences of calls on a new tracker that register the same keys and log
    the same transformations, in whatever order, build the same maps. *)
Theorem maps_independent_of_call_order :
  ∀ (cs cs' : list call),
    let self := do_calls empty_tracker cs in
    let self' := do_calls empty_tracker cs' in
    (list_to_set (assets self).*1 : gset string) = list_to_set (assets self').*1 →
    transformations self ≡ₚ transformations self' →
    dependencies self = dependencies self' ∧ downstream self = downstream self'.
Proof.
  intros cs cs' self self' Hkeys Hlog.
  destruct (consistent_do_calls cs empty_tracker consistent_empty) as [Hd Hw].
  destruct (consistent_do_calls cs' empty_tracker consistent_empty) as [Hd' Hw'].
  fold self in Hd, Hw. fold self' in Hd', Hw'. simpl in *.
  split; apply map_eq; intros k.
  - by rewrite Hd, Hd', Hkeys, (all_targets_perm _ _ Hlog), (sources_into_perm _ _ k Hlog).
  - by rewrite Hw, Hw', Hkeys, (all_sources_perm _ _ Hlog), (targets_from_perm _ _ k Hlog).
Qed.

Lemma consistent_edges self s t :
  consistent self →
  (member (dependencies self) t s ↔
   ∃ T, T ∈ transformations self ∧ target_asset T = t ∧ s ∈ source_assets T) ∧
  (member (downstream self) s t ↔
   ∃ T, T ∈ transformations self ∧ target_asset T = t ∧ s ∈ source_assets T).
Proof.
  intros [Hd Hw]. simpl in *. unfold member. split.
  - rewrite Hd, <- elem_of_sources_into. split.
    + intros (m & Hm & Hs). case_decide; by simplify_eq.
    + intros Hs. rewrite decide_True; [eauto|].
      apply elem_of_union_r. unfold all_targets. rewrite elem_of_list_to_set.
      apply elem_of_sources_into in Hs as (T & HT & <- & _).
      apply list_elem_of_fmap. eauto.
  - rewrite Hw. split.
    + intros (m & Hm & Ht). case_decide; [|done]. simplify_eq.
      apply elem_of_targets_from in Ht as (T & ? & ? & ?). eauto.
    + intros (T & HT & Ht & Hs). rewrite decide_True.
      * eexists. split; [done|]. apply elem_of_targets_from. eauto.
      * apply elem_of_union_r. unfold all_sources. apply elem_of_union_list.
        eexists. split; [apply list_elem_of_fmap; by exists T|]. set_solver.
Qed.

(** X7. After any sequence of calls on a new tracker the maps hold no edge
    that is not in the log: [s] is in [dependencies[t]] exactly when some
    logged transformation has target [t] and [s] among its sources, and so
    is [t] in [downstream[s]]; the two maps are each other's converse. *)
Theorem edges_come_from_log :
  ∀ (cs : list call) (s t : string),
    let self := do_calls empty_tracker cs in
    (member (dependencies self) t s ↔
     ∃ T, T ∈ transformations self ∧ target_asset T = t ∧ s ∈ source_assets T) ∧
    (member (downstream self) s t ↔
     ∃ T, T ∈ transformations self ∧ target_asset T = t ∧ s ∈ source_assets T) ∧
    (member (dependencies self) t s ↔ member (downstream self) s t).
Proof.
  intros cs s t self.
  destruct (consistent_edges self s t) as [Hd Hw];
    [apply consistent_do_calls, consistent_empty|].
  split_and!; [done | done | by rewrite Hd, Hw].
Qed.

Lemma tc_converse {A} (R S : relation A) a x :
  (∀ u v, R u v ↔ S v u) → tc R a x → tc S x a.
Proof.
  intros HRS. induction 1 as [u v Huv | u v w Huv _ IH].
  - apply tc_once. by apply HRS.
  - eapply tc_r; [exact IH|]. by apply HRS.
Qed.

End Maps.

Section Duality.
Context {order : SetIter}.

(** X8. After any sequence of calls on a new tracker, [x] is an upstream
    dependency of [a] exactly when [a] is in the downstream impact of
    [x]. *)
Theorem upstream_downstream_duality :
  ∀ (cs : list call) (a x : string),
    let self := do_calls empty_tracker cs in
    ∃ up down,
      get_upstream_dependencies self a = Some up ∧
      get_downstream_impact self x = Some down ∧
      (x ∈ up ↔ a ∈ down).
Proof.
  intros cs a x self.
  destruct (closure_from_scratch (dependencies self) a (depth_bound (dependencies self)))
    as (up & Hup & Hupx); [done|].
  destruct (closure_from_scratch (downstream self) x (depth_bound (downstream self)))
    as (down & Hdown & Hdownx); [done|].
  exists up, down. split_and!; [done | done|]. rewrite Hupx, Hdownx.
  assert (∀ u v, edge (dependencies self) u v ↔ edge (downstream self) v u) as Hconv.
  { intros u v. rewrite !edge_lookup.
    destruct (consistent_edges self v u) as [Hd Hw];
      [apply consistent_do_calls, consistent_empty|].
    by rewrite Hd, Hw. }
  split; apply tc_converse; intros u v; by rewrite Hconv.
Qed.

End Duality.

(** X6, witness: the scenario's three calls in the opposite order. *)
Lemma maps_independent_of_call_order_witness :
  dependencies scenario_tracker
  = dependencies (do_calls empty_tracker
                    [ AddTransformation scenario_transformation;
                      AddAsset (scenario_asset "silver");
                      AddAsset (scenario_asset "bronze") ]) ∧
  downstream scenario_tracker
  = downstream (do_calls empty_tracker
                  [ AddTransformation scenario_transformation;
                    AddAsset (scenario_asset "silver");
                    AddAsset (scenario_asset "bronze") ]).
Proof.
  apply (maps_independent_of_call_order
           [ AddAsset (scenario_asset "bronze"); AddAsset (scenario_asset "silver");
             AddTransformation scenario_transformation ]
           [ AddTransformation scenario_transformation;
             AddAsset (scenario_asset "silver"); AddAsset (scenario_asset "bronze") ]).
  - vm_compute. reflexivity.
  - vm_compute. reflexivity.
Defined.

(** ** Replaying calls *)

Section Replay.
Implicit Types (self : DataLineageTracker) (c : call).

Lemma saturated_call_keeps_maps self c :
  saturated self c →
  dependencies (do_call self c) = dependencies self ∧
  downstream (do_call self c) = downstream self.
Proof.
  destruct c as [asset|t].
  - simpl. intros [Hd Hw]. by rewrite !ensure_key_id.
  - intros [[m Hm] Hedges].
    change (do_call self (AddTransformation t)) with (add_transformation t self).
    rewrite add_transformation_edges. simpl. split.
    + apply map_eq. intros k. rewrite transformation_edges_dependencies. simpl.
      case_decide as Hk; [|done]. subst k. unfold get_or_empty. rewrite Hm. simpl.
      f_equal. apply set_eq. intros x. rewrite elem_of_union, elem_of_list_to_set.
      split; [|by left]. intros [Hx|Hx]; [done|].
      destruct (Hedges x Hx) as [(m' & Hm' & Hin) _]. by simplify_eq.
    + apply map_eq. intros k. rewrite transformation_edges_downstream. simpl.
      case_decide as Hk; [|done].
      destruct (Hedges k Hk) as [_ (w & Hw & Hin)]. unfold get_or_empty. rewrite Hw. simpl.
      f_equal. set_solver.
Qed.

Lemma saturated_same_maps self self' c :
  dependencies self = dependencies self' → downstream self = downstream self' →
  saturated self c → saturated self' c.
Proof. intros Hd Hw. destruct c; simpl; by rewrite Hd, Hw. Qed.

Lemma saturated_later self c c' : saturated self c → saturated (do_call self c') c.
Proof.
  destruct (do_call_keeps self c') as [Kd Kw].
  destruct c as [asset|t]; simpl.
  - intros [Hd Hw].
    destruct (do_call_keeps_present self c' (asset_key_of asset)) as (P1 & P2 & _). auto.
  - intros [Ht Hedges].
    destruct (do_call_keeps_present self c' (target_asset t)) as (P1 & _ & _).
    split; [auto|]. intros s Hs. destruct (Hedges s Hs). auto.
Qed.

Lemma saturated_after self c : saturated (do_call self c) c.
Proof.
  destruct c as [asset|t]; simpl.
  - split; apply ensure_key_present.
  - split; [|apply add_transformation_has_edges].
    destruct (add_edges_keep (target_asset t) (source_assets t)
                (ensure_key (target_asset t) (dependencies self), downstream self))
      as (_ & _ & K).
    apply K. simpl. apply ensure_key_present.
Qed.

Lemma saturated_footprint self c c' : same_footprint c c' → saturated self c → saturated self c'.
Proof.
  destruct c as [a|t], c' as [a'|t']; simpl; try done.
  - by intros ->.
  - by intros [-> ->].
Qed.

Lemma saturated_later_calls cs : ∀ self c, saturated self c → saturated (do_calls self cs) c.
Proof.
  induction cs as [|c' cs IH]; intros self c H; [done|]. simpl. by apply IH, saturated_later.
Qed.

Lemma saturated_after_calls cs : ∀ self, Forall (saturated (do_calls self cs)) cs.
Proof.
  induction cs as [|c cs IH]; intros self; [done|]. simpl. apply Forall_cons. split.
  - apply saturated_later_calls, saturated_after.
  - apply IH.
Qed.

Lemma saturated_calls_keep_maps cs : ∀ self,
  Forall (saturated self) cs →
  dependencies (do_calls self cs) = dependencies self ∧
  downstream (do_calls self cs) = downstream self.
Proof.
  induction cs as [|c cs IH]; intros self Hall; [done|]. simpl.
  apply Forall_cons in Hall as [Hc Hcs].
  destruct (saturated_call_keeps_maps self c Hc) as [Hd Hw].
  destruct (IH (do_call self c)) as [Id Iw].
  - eapply Forall_impl; [exact Hcs|]. intros c'. by apply saturated_same_maps.
  - by rewrite Id, Iw.
Qed.

Lemma saturated_footprints self cs cs' :
  Forall2 same_footprint cs cs' → Forall (saturated self) cs → Forall (saturated self) cs'.
Proof.
  induction 1 as [|c c' cs cs' Hc _ IH]; [done|].
  intros [H1 H2]%Forall_cons. apply Forall_cons. split; [|by apply IH].
  by eapply saturated_footprint.
Qed.

(** X9. Replaying a sequence of calls changes neither adjacency map: edge
    insertion is idempotent.  (The log does grow: every replayed
    [add_transformation] appends to it again.) *)
Theorem replaying_calls_keeps_maps :
  ∀ (self : DataLineageTracker) (cs : list call),
    let once := do_calls self cs in
    let twice := do_calls once cs in
    dependencies twice = dependencies once ∧
    downstream twice = downstream once ∧
    transformations twice = transformations once ++ added_transformations cs.
Proof.
  intros self cs once twice.
  destruct (saturated_calls_keep_maps cs once (saturated_after_calls cs self)) as [Hd Hw].
  split_and!; [done | done|]. unfold twice. clear.
  generalize once. induction cs as [|c cs IH]; intros st; simpl; [by rewrite app_nil_r|].
  rewrite IH. destruct c; simpl; [done|]. by rewrite <- app_assoc.
Qed.

End Replay.

(** ** What the rebuild does in every state *)

Section RebuildOutcome.
Implicit Types (self : DataLineageTracker) (K : gset string).

(** X10. [_rebuild_dependency_graphs] is idempotent: run on the state it
    leaves, raising or not, it does the same again. *)
Theorem rebuild_idempotent :
  ∀ self : DataLineageTracker,
    _rebuild_dependency_graphs (_rebuild_dependency_graphs self).2
    = _rebuild_dependency_graphs self.
Proof.
  intros self. rewrite rebuild_from_registry.
  destruct (rebuild_keeps_registry self) as [-> ->].
  by rewrite <- rebuild_from_registry.
Qed.

Lemma bind_raised {A B} (m : method A) (k : A → method B) self e self' :
  m self = (Raised e, self') → bind m k self = (Raised e, self').
Proof. intros Hm. unfold bind. by rewrite Hm. Qed.

Lemma dom_add_member key x (graph : gmap string (gset string)) :
  dom (add_member key x graph) = dom graph.
Proof. unfold add_member. apply dom_alter_L. Qed.

Lemma dependencies_add_missing key x self :
  dependencies self !! key = None →
  dependencies_add key x self = (Raised (KeyError key), self).
Proof. intros Hm. unfold dependencies_add, bind, get_self. by rewrite Hm. Qed.

Lemma downstream_add_missing key x self :
  downstream self !! key = None →
  downstream_add key x self = (Raised (KeyError key), self).
Proof. intros Hm. unfold downstream_add, bind, get_self. by rewrite Hm. Qed.

(** The inner loop of the rebuild, with entries for the keys [K] only: it
    returns when it finds its endpoints in [K], and else raises [KeyError]
    with the endpoint it misses. *)
Lemma rebuild_edges_loop_outcome target sources : ∀ self K,
  dom (dependencies self) = K → dom (downstream self) = K →
  ∃ o self',
    for_each sources
      (λ source, dependencies_add target source ;; downstream_add source target)%method self
    = (o, self') ∧
    ((o = Returned tt ∧ (sources = [] ∨ target ∈ K) ∧ (∀ s, s ∈ sources → s ∈ K) ∧
      dom (dependencies self') = K ∧ dom (downstream self') = K) ∨
     (∃ k, o = Raised (KeyError k) ∧ (k ∉ K) ∧ ((k = target ∧ sources ≠ []) ∨ k ∈ sources))).
Proof.
  induction sources as [|s sources IH]; intros self K Hd Hw; simpl.
  { eexists _, _. split; [done|]. left. split_and!; auto. by intros s Hs%elem_of_nil. }
  destruct (dependencies self !! target) as [m|] eqn:Ht.
  2:{ eexists _, _. split.
      - apply bind_raised, bind_raised. by apply dependencies_add_missing.
      - right. exists target. split_and!; [done | |by left].
        rewrite <- Hd. by apply not_elem_of_dom. }
  assert (target ∈ K) as HtK by (rewrite <- Hd; apply elem_of_dom; eauto).
  destruct (downstream self !! s) as [w|] eqn:Hs.
  2:{ eexists _, _. split.
      - apply bind_raised. erewrite bind_returned; [|apply dependencies_add_present; eauto].
        by apply downstream_add_missing.
      - right. exists s. split_and!; [done | |right; apply list_elem_of_here].
        rewrite <- Hw. by apply not_elem_of_dom. }
  assert (s ∈ K) as HsK by (rewrite <- Hw; apply elem_of_dom; eauto).
  edestruct (IH (set_downstream (add_member s target (downstream self))
                   (set_dependencies (add_member target s (dependencies self)) self)) K)
    as (o & self' & Hrun & Hcase).
  { simpl. by rewrite dom_add_member. }
  { simpl. by rewrite dom_add_member. }
  exists o, self'. split.
  - erewrite bind_returned; [exact Hrun|].
    erewrite bind_returned; [|apply dependencies_add_present; eauto].
    rewrite downstream_add_present by (simpl; eauto). reflexivity.
  - destruct Hcase as [(-> & _ & Hall & Hd' & Hw') | (k & -> & Hk & Hwhere)].
    + left. split_and!; [done | by right | | done | done].
      intros s' [->|Hs']%elem_of_cons; auto.
    + right. exists k. split_and!; [done | done|].
      destruct Hwhere as [[-> _] | Hin]; [by left | right; by apply list_elem_of_further].
Qed.

Lemma rebuild_log_loop_outcome log : ∀ self K,
  dom (dependencies self) = K → dom (downstream self) = K →
  ∃ o self',
    for_each log
      (λ transformation,
         let target := target_asset transformation in
         for_each (source_assets transformation)
           (λ source, dependencies_add target source ;; downstream_add source target))%method
      self
    = (o, self') ∧
    ((o = Returned tt ∧
      ∀ t, t ∈ log → (source_assets t = [] ∨ target_asset t ∈ K) ∧
                     ∀ s, s ∈ source_assets t → s ∈ K) ∨
     (∃ k t, o = Raised (KeyError k) ∧ (k ∉ K) ∧ t ∈ log ∧
             (k = target_asset t ∧ source_assets t ≠ [] ∨ k ∈ source_assets t))).
Proof.
  induction log as [|t log IH]; intros self K Hd Hw; simpl.
  { eexists _, _. split; [done|]. left. split; [done|]. by intros t Ht%elem_of_nil. }
  destruct (rebuild_edges_loop_outcome (target_asset t) (source_assets t) self K Hd Hw)
    as (o1 & self1 & Hrun1 & Hcase1).
  destruct Hcase1 as [(-> & Htarget & Hsources & Hd1 & Hw1) | (k & -> & Hk & Hwhere)].
  - destruct (IH self1 K Hd1 Hw1) as (o & self' & Hrun & Hcase).
    exists o, self'. split; [by erewrite bind_returned|].
    destruct Hcase as [[-> Hall] | (k & t' & -> & Hk & Ht' & Hwhere)].
    + left. split; [done|]. intros t' [->|Ht']%elem_of_cons; auto.
    + right. exists k, t'. split_and!; [done | done | by apply list_elem_of_further | done].
  - eexists _, _. split; [by apply bind_raised|].
    right. exists k, t. split_and!; [done | done | apply list_elem_of_here | done].
Qed.

Lemma dom_init_entries keys :
  dom (init_entries keys (∅ : gmap string (gset string))) = list_to_set keys.
Proof.
  apply set_eq. intros k. rewrite elem_of_dom, init_entries_lookup, elem_of_list_to_set.
  case_decide; [by split; eauto|]. rewrite lookup_empty. split; [by intros [??]|done].
Qed.

Lemma rebuild_outcome_cases self :
  ∃ o self',
    _rebuild_dependency_graphs self = (o, self') ∧
    ((o = Returned tt ∧ rebuild_ok self) ∨
     (∃ k t, o = Raised (KeyError k) ∧ (k ∉ (assets self).*1) ∧ t ∈ transformations self ∧
             (k = target_asset t ∧ source_assets t ≠ [] ∨ k ∈ source_assets t))).
Proof.
  unfold _rebuild_dependency_graphs.
  edestruct (rebuild_log_loop_outcome (transformations self)
               {| assets := assets self; transformations := transformations self;
                  dependencies := init_entries (assets self).*1 ∅;
                  downstream := init_entries (assets self).*1 ∅ |}
               (list_to_set (assets self).*1)) as (o & self' & Hrun & Hcase);
    [apply dom_init_entries..|].
  exists o, self'. split.
  - erewrite bind_returned; [|reflexivity].
    erewrite bind_returned; [|reflexivity].
    erewrite bind_returned; [|reflexivity].
    erewrite bind_returned; [|apply rebuild_init_loop].
    erewrite bind_returned; [|reflexivity]. exact Hrun.
  - destruct Hcase as [[-> Hall] | (k & t & -> & Hk & Ht & Hwhere)].
    + left. split; [done|]. intros t Ht. destruct (Hall t Ht) as [H1 H2].
      setoid_rewrite elem_of_list_to_set in H1. setoid_rewrite elem_of_list_to_set in H2. done.
    + right. exists k, t. rewrite elem_of_list_to_set in Hk. done.
Qed.

(** X12. [_rebuild_dependency_graphs] returns exactly when every logged
    transformation that has a source has its target and all its sources
    registered; otherwise it raises [KeyError] with an unregistered key that
    is such a target or source. *)
Theorem rebuild_outcome :
  ∀ self : DataLineageTracker,
    ((_rebuild_dependency_graphs self).1 = Returned tt ↔ rebuild_ok self) ∧
    (∀ e, (_rebuild_dependency_graphs self).1 = Raised e →
          ∃ k t, e = KeyError k ∧ (k ∉ (assets self).*1) ∧ t ∈ transformations self ∧
                 (k = target_asset t ∧ source_assets t ≠ [] ∨ k ∈ source_assets t)).
Proof.
  intros self. destruct (rebuild_outcome_cases self) as (o & self' & -> & Hcase). simpl.
  destruct Hcase as [[-> Hok] | (k & t & -> & Hk & Ht & Hwhere)].
  - split; [done|]. by intros e [=].
  - split.
    + split; [done|]. intros Hok. exfalso. destruct (Hok t Ht) as [Htarget Hsources].
      destruct Hwhere as [[-> Hne] | Hin]; [|by apply Hk, Hsources].
      by destruct Htarget.
    + intros e [= <-]. eauto 10.
Qed.

End RebuildOutcome.

(** ** More on the queries *)

Section QueriesMore.
Implicit Types (graph : gmap string (gset string)) (self : DataLineageTracker).

Lemma closure_any_order (o1 o2 : SetIter) graph a :
  closure (order := o1) (depth_bound graph) graph a ∅
  = closure (order := o2) (depth_bound graph) graph a ∅.
Proof.
  destruct (closure_from_scratch (order := o1) graph a (depth_bound graph))
    as (r1 & -> & H1); [done|].
  destruct (closure_from_scratch (order := o2) graph a (depth_bound graph))
    as (r2 & -> & H2); [done|].
  f_equal. apply set_eq. intros x. by rewrite H1, H2.
Qed.

(** X13. The sets returned by [get_upstream_dependencies] and
    [get_downstream_impact] do not depend on the order in which Python
    iterates over the sets of direct neighbours. *)
Theorem closures_independent_of_set_order :
  ∀ (o1 o2 : SetIter) (self : DataLineageTracker) (asset : string),
    get_upstream_dependencies (order := o1) self asset
    = get_upstream_dependencies (order := o2) self asset ∧
    get_downstream_impact (order := o1) self asset
    = get_downstream_impact (order := o2) self asset.
Proof. intros o1 o2 self asset. split; apply closure_any_order. Qed.

Context {order : SetIter}.

Lemma closure_empty_iff graph a :
  closure (depth_bound graph) graph a ∅ = Some ∅ ↔ get_or_empty graph a = ∅.
Proof.
  destruct (closure_from_scratch graph a (depth_bound graph)) as (r & -> & Hr); [done|].
  split.
  - intros [= ->]. apply set_eq. intros x. split; [|set_solver].
    intros Hx. apply Hr. by apply tc_once.
  - intros Hempty. f_equal. apply set_eq. intros x. rewrite Hr. split; [|set_solver].
    intros Htc. destruct Htc as [? y Hedge | ? y ? Hedge _];
      unfold edge in Hedge; rewrite Hempty in Hedge; set_solver.
Qed.

(** X14. A closure query returns the empty set exactly for an asset without
    direct neighbours in the adjacency map; in particular a key that the map
    does not hold gives the empty set, not an error. *)
Theorem closure_empty_without_neighbours :
  ∀ (self : DataLineageTracker) (asset : string),
    (get_upstream_dependencies self asset = Some ∅ ↔
     get_or_empty (dependencies self) asset = ∅) ∧
    (get_downstream_impact self asset = Some ∅ ↔
     get_or_empty (downstream self) asset = ∅) ∧
    (dependencies self !! asset = None → get_upstream_dependencies self asset = Some ∅) ∧
    (downstream self !! asset = None → get_downstream_impact self asset = Some ∅).
Proof.
  intros self asset. split_and!; try apply closure_empty_iff.
  - intros Hnone. apply closure_empty_iff. unfold get_or_empty. by rewrite Hnone.
  - intros Hnone. apply closure_empty_iff. unfold get_or_empty. by rewrite Hnone.
Qed.

Lemma closure_closed graph a :
  ∃ r, closure (depth_bound graph) graph a ∅ = Some r ∧
       get_or_empty graph a ⊆ r ∧
       ∀ x, x ∈ r → ∃ rx, closure (depth_bound graph) graph x ∅ = Some rx ∧ rx ⊆ r.
Proof.
  destruct (closure_from_scratch graph a (depth_bound graph)) as (r & Hr & Hx); [done|].
  exists r. split_and!; [done | |].
  - intros x Hin. apply Hx. by apply tc_once.
  - intros x Hin.
    destruct (closure_from_scratch graph x (depth_bound graph)) as (rx & Hrx & Hy); [done|].
    exists rx. split; [done|]. intros y Hy'. apply Hx.
    eapply tc_transitive; [by apply Hx | by apply Hy].
Qed.

(** X15. The set returned by a closure query holds the direct neighbours of
    the asset and, with each of its members, everything the query returns
    for that member. *)
Theorem closure_queries_closed :
  ∀ (self : DataLineageTracker) (asset : string),
    (∃ r, get_upstream_dependencies self asset = Some r ∧
          get_or_empty (dependencies self) asset ⊆ r ∧
          ∀ x, x ∈ r → ∃ rx, get_upstream_dependencies self x = Some rx ∧ rx ⊆ r) ∧
    (∃ r, get_downstream_impact self asset = Some r ∧
          get_or_empty (downstream self) asset ⊆ r ∧
          ∀ x, x ∈ r → ∃ rx, get_downstream_impact self x = Some rx ∧ rx ⊆ r).
Proof. intros self asset. split; apply closure_closed. Qed.

(** X16. [get_lineage_path source target] is non-empty exactly when
    [target] is [source] or is in [get_downstream_impact source]. *)
Theorem lineage_path_iff_impact :
  ∀ (self : DataLineageTracker) (source target : string),
    ∃ p r,
      get_lineage_path self source target = Some p ∧
      get_downstream_impact self source = Some r ∧
      (p ≠ [] ↔ source = target ∨ target ∈ r).
Proof.
  intros self source target. unfold get_lineage_path, get_downstream_impact.
  destruct (find_path_total (downstream self) source target) as (res & -> & Hspec).
  destruct (closure_from_scratch (downstream self) source (depth_bound (downstream self)))
    as (r & -> & Hr); [done|].
  eexists _, r. split_and!; [done | done|]. rewrite Hr, <- rtc_tc.
  destruct res as [p|]; simpl.
  - destruct Hspec as [Hp Hrtc]. destruct p as [|u p]; [by destruct Hp|]. simpl.
    split; [done|]. by intros.
  - split; [done|]. intros Hrtc. by destruct Hspec.
Qed.

Lemma first_truthy_found (f : string → option (option (list string))) l p :
  first_truthy f l = Some (Some p) → ∃ d, d ∈ l ∧ f d = Some (Some p).
Proof.
  induction l as [|d l IH]; simpl; [done|].
  destruct (f d) as [res|] eqn:Hd; [|done].
  destruct (truthy res) eqn:Ht.
  - intros [= ->]. exists d. split; [apply list_elem_of_here | done].
  - intros H. destruct (IH H) as (d' & Hd' & Hf). exists d'.
    split; [by apply list_elem_of_further | done].
Qed.

(** A path that the search returns repeats no node, stays outside
    [visited], and is no longer than the keys left to visit allow. *)
Lemma find_path_simple fuel : ∀ graph current target path visited p,
  target ∉ visited →
  find_path fuel graph current target path visited = Some (Some p) →
  ∃ q, p = path ++ q ∧ NoDup q ∧ (∀ x, x ∈ q → x ∉ visited) ∧
       length q ≤ S (size (dom graph ∖ visited)).
Proof.
  induction fuel as [|fuel IH]; intros graph current target path visited p Htarget; [done|].
  simpl. case_decide as Heq.
  { intros [= <-]. subst. exists [target]. split_and!; [done | apply NoDup_singleton | |simpl; lia].
    by intros x ->%list_elem_of_singleton. }
  case_decide as Hvis; [done|].
  intros (d & Hd & Hfound)%first_truthy_found.
  apply elem_of_set_iter in Hd.
  assert (target ∉ visited ∪ {[current]}) as Htarget' by set_solver.
  destruct (IH _ _ _ _ _ _ Htarget' Hfound) as (q & -> & Hnd & Havoid & Hlen).
  exists (current :: q). split_and!.
  - by rewrite <- app_assoc.
  - apply NoDup_cons. split; [|done]. intros Hin. apply (Havoid _ Hin). set_solver.
  - intros x [->|Hx]%elem_of_cons; [done|]. specialize (Havoid x Hx). set_solver.
  - assert (current ∈ dom graph) as Hdom by (by eapply edge_source_key).
    pose proof (dom_minus_visited_lt graph visited current Hdom Hvis). simpl. lia.
Qed.

(** X17. The sequence that [get_lineage_path] returns repeats no asset and
    has at most one entry more than [downstream] has keys. *)
Theorem lineage_path_simple :
  ∀ (self : DataLineageTracker) (source target : string),
    ∃ p, get_lineage_path self source target = Some p ∧
         NoDup p ∧ length p ≤ S (size (dom (downstream self))).
Proof.
  intros self source target. unfold get_lineage_path.
  destruct (find_path_total (downstream self) source target) as (res & Hres & _).
  rewrite Hres. simpl. eexists. split; [done|].
  destruct res as [[|u p]|]; simpl.
  - split; [apply NoDup_nil_2 | lia].
  - destruct (find_path_simple _ _ _ _ _ _ _ (not_elem_of_empty target) Hres)
      as (q & Hq & Hnd & _ & Hlen).
    simpl in Hq. subst q. split; [done|].
    assert (size (dom (downstream self) ∖ ∅) ≤ size (dom (downstream self)))
      by (apply subseteq_size; set_solver).
    simpl in Hlen. lia.
  - split; [apply NoDup_nil_2 | lia].
Qed.

End QueriesMore.

(** ** More on the impact analysis *)

Section ImpactMore.
Context {order : SetIter}.
Implicit Types (self : DataLineageTracker).

Lemma impact_loop_affected self changed : ∀ affected found,
  ∃ affected',
    foldl (impact_step self) (Some (affected, found)) changed
    = Some (affected', found ++ records_per_position (transformations self) changed) ∧
    ∀ x, x ∈ affected' ↔
         x ∈ affected ∨ ∃ a r, a ∈ changed ∧ get_downstream_impact self a = Some r ∧ x ∈ r.
Proof.
  induction changed as [|s changed IH]; intros affected found; simpl.
  - exists affected. rewrite app_nil_r. split; [done|]. intros x. split; [by left|].
    intros [?|(a & r & Ha%elem_of_nil & _)]; done.
  - destruct (closure_total (downstream self) s) as (r & Hr & _).
    unfold get_downstream_impact at 1. rewrite Hr. simpl.
    destruct (IH (affected ∪ r) (scan_transformations s (transformations self) found))
      as (affected' & -> & Hx).
    exists affected'. rewrite scan_transformations_spec, <- app_assoc. split; [done|].
    intros x. rewrite Hx, elem_of_union. split.
    + intros [[Hin|Hin] | (a & ra & Ha & Hra & Hin)]; [by left | |].
      * right. exists s, r. split_and!; [apply list_elem_of_here | done | done].
      * right. exists a, ra. split_and!; [by apply list_elem_of_further | done | done].
    + intros [Hin | (a & ra & [->|Ha]%elem_of_cons & Hra & Hin)]; [by left; left | |].
      * left; right. unfold get_downstream_impact in Hra. by simplify_eq.
      * right. eauto.
Qed.

(** The result of [analyze_impact] in terms of the set of affected assets. *)
Lemma analyze_impact_result self changed :
  ∃ affected r,
    analyze_impact self changed = Some r ∧
    (∀ x, x ∈ affected ↔
          ∃ a ra, a ∈ changed ∧ get_downstream_impact self a = Some ra ∧ x ∈ ra) ∧
    changed_assets r = changed ∧
    affected_assets r = set_iter affected ∧
    affected_transformations r = records_per_position (transformations self) changed ∧
    risk_level r =
      (if (10 <? size affected) || (5 <? length (affected_transformations r)) then "HIGH"
       else if (5 <? size affected) || (2 <? length (affected_transformations r))
            then "MEDIUM" else "LOW").
Proof.
  unfold analyze_impact.
  destruct (impact_loop_affected self changed ∅ []) as (affected & -> & Hx). simpl.
  exists affected.
  destruct ((10 <? size affected) || _) eqn:Hhigh;
    [|destruct ((5 <? size affected) || _) eqn:Hmed];
    eexists; (split; [reflexivity|]); simpl; rewrite ?Hhigh, ?Hmed;
    (split_and!; [|done..]); intros x; rewrite Hx; set_solver.
Qed.

(** X18. The affected assets of [analyze_impact] are, without repetition,
    exactly the members of [get_downstream_impact] of the changed assets (a
    changed asset itself only if it is downstream of a changed asset), and
    the result echoes the changed assets. *)
Theorem affected_assets_are_downstream_impacts :
  ∀ (self : DataLineageTracker) (changed : list string),
    ∃ r, analyze_impact self changed = Some r ∧
         changed_assets r = changed ∧
         NoDup (affected_assets r) ∧
         ∀ x, x ∈ affected_assets r ↔
              ∃ a ra, a ∈ changed ∧ get_downstream_impact self a = Some ra ∧ x ∈ ra.
Proof.
  intros self changed.
  destruct (analyze_impact_result self changed) as (affected & r & Hr & Hx & Hc & Ha & _).
  exists r. split_and!; [done | done | |].
  - rewrite Ha, (set_iter_perm affected). apply NoDup_elements.
  - intros x. by rewrite Ha, elem_of_set_iter, Hx.
Qed.

(** X19. When one of the changed assets has more than ten assets in its
    downstream impact, the risk level is [HIGH], whatever the log. *)
Theorem large_impact_is_high_risk :
  ∀ (self : DataLineageTracker) (changed : list string) (a : string) (ra : gset string),
    a ∈ changed →
    get_downstream_impact self a = Some ra →
    10 < size ra →
    risk_level <$> analyze_impact self changed = Some "HIGH".
Proof.
  intros self changed a ra Ha Hra Hsize.
  destruct (analyze_impact_result self changed) as (affected & r & -> & Hx & _ & _ & _ & Hrisk).
  simpl. f_equal. rewrite Hrisk.
  assert (size ra ≤ size affected) as Hle.
  { apply subseteq_size. intros x Hin. apply Hx. eauto. }
  assert ((10 <? size affected) = true) as -> by (apply Nat.ltb_lt; lia). done.
Qed.

End ImpactMore.

(** X19, witness: [bronze.x] with twelve direct consumers. *)
Lemma large_impact_is_high_risk_witness :
  risk_level <$> analyze_impact (order := elements_order) (fan_out_tracker twelve_names)
                   ["bronze.x"]
  = Some "HIGH".
Proof.
  eapply (large_impact_is_high_risk (order := elements_order)
            (fan_out_tracker twelve_names) ["bronze.x"] "bronze.x").
  - apply list_elem_of_here.
  - vm_compute. reflexivity.
  - vm_compute. lia.
Defined.

(** ** Node identifiers and diagram text *)

Section Diagrams.
Implicit Types (s : string) (self : DataLineageTracker).

Lemma str_replace_char_chars old s c :
  c ∈ String.list_ascii_of_string (str_replace old "_" s) →
  c ≠ old ∨ c = Ascii.ascii_of_nat 95.
Proof.
  induction s as [|c0 s IH]; simpl; [by intros ?%elem_of_nil|].
  case_decide as Heq; simpl.
  - intros [->|Hin]%elem_of_cons; [by right | auto].
  - intros [->|Hin]%elem_of_cons; [by left | auto].
Qed.

Lemma str_replace_char_length old s :
  String.length (str_replace old "_" s) = String.length s.
Proof.
  induction s as [|c0 s IH]; simpl; [done|].
  case_decide; simpl; [|by rewrite IH].
  change ("" +:+ str_replace old "_" s) with (str_replace old "_" s). by rewrite IH.
Qed.

Lemma str_replace_absent old s c :
  c ≠ Ascii.ascii_of_nat 95 →
  c ∉ String.list_ascii_of_string s →
  c ∉ String.list_ascii_of_string (str_replace old "_" s).
Proof.
  intros Hc. induction s as [|c0 s IH]; simpl; [done|].
  rewrite not_elem_of_cons. intros [Hne Hnin].
  case_decide; simpl; rewrite not_elem_of_cons; auto.
Qed.

(** X20. A node identifier holds neither ['.'] nor ['-'] and is as long as
    the key it is made from. *)
Theorem node_id_sanitised :
  ∀ key : string,
    (dot_char ∉ String.list_ascii_of_string (node_id_of key)) ∧
    (dash_char ∉ String.list_ascii_of_string (node_id_of key)) ∧
    String.length (node_id_of key) = String.length key.
Proof.
  intros key. unfold node_id_of. split_and!.
  - apply str_replace_absent; [done|]. intros Hin.
    by destruct (str_replace_char_chars _ _ _ Hin).
  - intros Hin. by destruct (str_replace_char_chars _ _ _ Hin).
  - by rewrite !str_replace_char_length.
Qed.

Lemma string_app_cons c s1 s2 : String c s1 +:+ s2 = String c (s1 +:+ s2).
Proof. reflexivity. Qed.

Lemma string_app_assoc s1 s2 s3 : (s1 +:+ s2) +:+ s3 = s1 +:+ s2 +:+ s3.
Proof.
  induction s1 as [|c s1 IH]; [reflexivity|]. by rewrite !string_app_cons, IH.
Qed.

Lemma str_replace_app old new s1 s2 :
  str_replace old new (s1 +:+ s2) = str_replace old new s1 +:+ str_replace old new s2.
Proof.
  induction s1 as [|c s1 IH]; simpl; [done|]. rewrite IH.
  case_decide; [|done]. by rewrite string_app_assoc.
Qed.

Lemma node_id_of_app s1 s2 : node_id_of (s1 +:+ s2) = node_id_of s1 +:+ node_id_of s2.
Proof. unfold node_id_of. by rewrite !str_replace_app. Qed.

(** X21. Node identifiers are not unique per key: keys that differ only in
    having ['.'], ['-'] or ['_'] at some place get the same identifier, so
    their nodes and edges coincide in both diagrams. *)
Theorem node_id_collisions :
  ∀ before after : string,
    node_id_of (before +:+ "." +:+ after) = node_id_of (before +:+ "_" +:+ after) ∧
    node_id_of (before +:+ "-" +:+ after) = node_id_of (before +:+ "_" +:+ after) ∧
    before +:+ "." +:+ after ≠ before +:+ "-" +:+ after.
Proof.
  intros before after. rewrite !node_id_of_app. split_and!; [done | done|].
  induction before as [|c before IH]; simpl; [done|]. intros [=]. done.
Qed.

End Diagrams.

Section DiagramLines.
Implicit Types (self : DataLineageTracker) (lines : list string).

Lemma foldl_append {A} (f : list string → A → list string) (g : A → list string) l :
  (∀ lines x, f lines x = lines ++ g x) →
  ∀ lines, foldl f lines l = lines ++ (x ← l; g x).
Proof.
  intros Hf. induction l as [|x l IH]; intros lines; simpl; [by rewrite app_nil_r|].
  by rewrite IH, Hf, <- app_assoc.
Qed.

Lemma edge_lines_all arrow stop log lines :
  edge_lines arrow stop log lines = lines ++ all_edge_lines arrow stop log.
Proof.
  unfold edge_lines, all_edge_lines.
  apply (foldl_append _
           (λ t, s ← source_assets t;
                 ["    " +:+ node_id_of s +:+ arrow +:+ node_id_of (target_asset t) +:+ stop])).
  intros lines' t. by apply foldl_append.
Qed.

Lemma bind_singleton_fmap {A B} (f : A → B) (l : list A) : (x ← l; [f x]) = f <$> l.
Proof. induction l as [|x l IH]; csimpl; [done|]. by rewrite IH. Qed.

Lemma length_all_edge_lines arrow stop log :
  length (all_edge_lines arrow stop log) = sum_list (length ∘ source_assets <$> log).
Proof.
  unfold all_edge_lines. induction log as [|t log IH]; csimpl; [done|].
  rewrite length_app, IH. f_equal. by rewrite bind_singleton_fmap, length_fmap.
Qed.

(** X22. Both diagrams are drawn from the registry and the log, not from
    the adjacency maps: after the header come one node line per registered
    asset, in registry order, and one edge line per source of each logged
    transformation, in log order (a transformation logged twice is drawn
    twice), then the closing lines of the dialect. *)
Theorem diagram_lines :
  ∀ self : DataLineageTracker,
    _generate_mermaid_diagram self =
      String.concat newline
        (["graph TD"] ++ (mermaid_node_line <$> assets self) ++
         all_edge_lines " --> " "" (transformations self) ++ mermaid_styles) ∧
    _generate_dot_diagram self =
      String.concat newline
        (["digraph DataLineage {"; "    rankdir=LR;"; "    node [shape=box];"] ++
         (dot_node_line <$> assets self) ++
         all_edge_lines " -> " ";" (transformations self) ++ ["}"]) ∧
    length (all_edge_lines " --> " "" (transformations self))
      = sum_list (length ∘ source_assets <$> transformations self) ∧
    length (all_edge_lines " -> " ";" (transformations self))
      = sum_list (length ∘ source_assets <$> transformations self).
Proof.
  intros self. split_and!; [| |apply length_all_edge_lines..].
  - unfold _generate_mermaid_diagram. rewrite edge_lines_all.
    rewrite (foldl_append _ (λ entry, [mermaid_node_line entry])).
    + rewrite bind_singleton_fmap. f_equal. by rewrite <- !app_assoc.
    + intros lines [key asset]. unfold mermaid_node_line, mermaid_class. simpl.
      repeat case_decide; rewrite ?string_app_assoc; try done.
      all: repeat (f_equal; try done).
  - unfold _generate_dot_diagram. rewrite edge_lines_all.
    rewrite (foldl_append _ (λ entry, [dot_node_line entry])).
    + rewrite bind_singleton_fmap. f_equal. by rewrite <- !app_assoc.
    + intros lines [key asset]. unfold dot_node_line, dot_color. simpl.
      by repeat case_decide.
Qed.

End DiagramLines.

(** ** More on saving and loading *)

Section PersistenceMore.
Implicit Types (self : DataLineageTracker).

(** X23. What [asdict] makes of an asset or of a transformation, the
    dataclass constructor called with it as keyword arguments turns back
    into the same record, field by field. *)
Theorem asdict_then_init :
  ∀ (asset : DataAsset) (transformation : DataTransformation),
    DataAsset_init (asdict_asset asset) = Returned asset ∧
    DataTransformation_init (asdict_transformation transformation) = Returned transformation.
Proof.
  intros asset transformation.
  split; [apply DataAsset_init_asdict | apply DataTransformation_init_asdict].
Qed.












Lemma dict_set_same {V} (k : string) (v : V) d : dict_get k d = Some v → dict_set k v d = d.
Proof.
  induction d as [|[k0 v0] d IH]; simpl; [done|].
  case_decide as Heq; [by intros [= ->]; subst | intros Hget; by rewrite IH].
Qed.

Lemma dict_get_entry {V} (d : list (string * V)) k v :
  NoDup d.*1 → (k, v) ∈ d → dict_get k d = Some v.
Proof.
  induction d as [|[k0 v0] d IH]; simpl; [by intros _ ?%elem_of_nil|].
  intros [Hk0 Hnd]%NoDup_cons [[= -> ->]|Hin]%elem_of_cons.
  - by rewrite decide_True.
  - rewrite decide_False; [by apply IH|]. intros ->. apply Hk0.
    apply list_elem_of_fmap. by exists (k0, v).
Qed.

Lemma dict_set_present_all {V} (l d : list (string * V)) :
  (∀ k v, (k, v) ∈ l → dict_get k d = Some v) →
  foldl (λ d kv, dict_set kv.1 kv.2 d) d l = d.
Proof.
  induction l as [|[k v] l IH]; intros Hl; simpl; [done|].
  rewrite dict_set_same by (apply Hl; apply list_elem_of_here).
  apply IH. intros k' v' Hin. apply Hl. by apply list_elem_of_further.
Qed.

(** X27. Loading the document that a tracker has just saved into that same
    tracker leaves the registry as it is and appends the whole log to the
    log once more. *)
Theorem load_own_document_doubles_log :
  ∀ (now : string) (self : DataLineageTracker),
    NoDup (assets self).*1 →
    let again := (load_lineage (Document (save_lineage now self)) self).2 in
    assets again = assets self ∧
    transformations again = transformations self ++ transformations self.
Proof.
  intros now self Hnd again.
  assert (again = (_rebuild_dependency_graphs
                     (set_transformations (transformations self ++ transformations self)
                        self)).2) as ->.
  { unfold again, load_lineage, try_except, load_document, save_lineage.
    erewrite bind_returned;
      [|unfold of_outcome, json_get; cbn [dict_get]; decide_keys; reflexivity].
    erewrite bind_returned; [|reflexivity].
    erewrite bind_returned; [|apply load_assets_loop].
    erewrite bind_returned;
      [|unfold of_outcome, json_get; cbn [dict_get]; decide_keys; reflexivity].
    erewrite bind_returned; [|reflexivity].
    erewrite bind_returned; [|apply load_transformations_loop].
    rewrite dict_set_present_all by (intros k v; by apply dict_get_entry).
    simpl. assert (set_assets (assets self) self = self) as -> by (by destruct self).
    by destruct (_rebuild_dependency_graphs _) as [[[]|e] after]. }
  destruct (rebuild_keeps_registry
              (set_transformations (transformations self ++ transformations self) self))
    as [-> ->].
  done.
Qed.

End PersistenceMore.


(** X27, witness: the scenario. *)
Lemma load_own_document_doubles_log_witness :
  assets (load_lineage (Document (save_lineage "2024-01-01T00:00:00" scenario_tracker))
            scenario_tracker).2
  = assets scenario_tracker ∧
  transformations
    (load_lineage (Document (save_lineage "2024-01-01T00:00:00" scenario_tracker))
       scenario_tracker).2
  = transformations scenario_tracker ++ transformations scenario_tracker.
Proof.
  apply (load_own_document_doubles_log "2024-01-01T00:00:00" scenario_tracker).
  apply (bool_decide_unpack _). vm_compute. exact I.
Defined.

(** ** The seeded warehouse and the runs of [main] *)

Section Seeding.
Variable clock : nat → string.
Implicit Types (self : DataLineageTracker).

Lemma initialize_as_calls self :
  initialize_warehouse_lineage clock self = do_calls self (seed_calls clock).
Proof.
  cbv [initialize_warehouse_lineage seed_calls do_calls foldl zip zip_with seq
       bronze_tables silver_tables gold_objects silver_transforms fmap list_fmap app do_call].
  reflexivity.
Qed.

Lemma seed_added_keys : added_keys (seed_calls clock) = warehouse_keys.
Proof. by vm_compute. Qed.

Lemma seed_added_length : length (added_transformations (seed_calls clock)) = 9.
Proof. by vm_compute. Qed.

Lemma seed_added_within :
  Forall (λ t, target_asset t ∈ warehouse_keys ∧
               Forall (λ s, s ∈ warehouse_keys) (source_assets t))
    (added_transformations (seed_calls clock)).
Proof. apply (bool_decide_unpack _). by vm_compute. Qed.

Lemma warehouse_keys_distinct : NoDup warehouse_keys.
Proof. apply (bool_decide_unpack _). by vm_compute. Qed.

Lemma do_calls_known_keys cs : ∀ self,
  Forall (λ k, k ∈ (assets self).*1) (added_keys cs) →
  (assets (do_calls self cs)).*1 = (assets self).*1.
Proof.
  induction cs as [|c cs IH]; intros self Hall; [done|]. simpl.
  destruct c as [asset|t]; simpl in *.
  - apply Forall_cons in Hall as [Hkey Hall].
    assert ((assets (add_asset asset self)).*1 = (assets self).*1) as Hsame.
    { simpl. rewrite dict_set_key_list. by rewrite decide_True. }
    rewrite IH; [done|]. by rewrite Hsame.
  - by rewrite IH.
Qed.

Lemma do_calls_registers cs self asset :
  AddAsset asset ∈ cs →
  asset_key_of asset ∈ (assets (do_calls self cs)).*1 ∧
  is_Some (dependencies (do_calls self cs) !! asset_key_of asset) ∧
  is_Some (downstream (do_calls self cs) !! asset_key_of asset).
Proof.
  intros (before & later & ->)%list_elem_of_split. rewrite do_calls_app.
  destruct (do_calls_keep_present later (add_asset asset (do_calls self before))
              (asset_key_of asset)) as (L1 & L2 & L3).
  split_and!.
  - apply L3. simpl. rewrite dict_set_keys. by left.
  - apply L1, ensure_key_present.
  - apply L2, ensure_key_present.
Qed.

Lemma seeded_first : seeded (initialize_warehouse_lineage clock empty_tracker).
Proof.
  split_and!.
  - rewrite initialize_as_calls. apply consistent_do_calls, consistent_empty.
  - by vm_compute.
  - rewrite initialize_as_calls, do_calls_log. apply seed_added_within.
Qed.

Lemma seeded_next self : seeded self → seeded (initialize_warehouse_lineage clock self).
Proof.
  intros (Hcons & Hkeys & Hlog). rewrite initialize_as_calls. split_and!.
  - by apply consistent_do_calls.
  - rewrite do_calls_known_keys; [done|]. rewrite seed_added_keys, Hkeys.
    by apply Forall_forall.
  - rewrite do_calls_log. apply Forall_app. split; [done | apply seed_added_within].
Qed.

Lemma seeded_registered self :
  seeded self → endpoints_registered self ∧ NoDup (assets self).*1.
Proof.
  intros (_ & Hkeys & Hlog). unfold endpoints_registered. rewrite Hkeys.
  split; [|apply warehouse_keys_distinct].
  intros t Ht. rewrite Forall_forall in Hlog. destruct (Hlog t Ht) as [Htarget Hsources].
  split; [done|]. by apply Forall_forall.
Qed.

Lemma seeded_restored now self :
  seeded self → new_tracker (Document (save_lineage now self)) = self.
Proof.
  intros Hseeded. destruct (seeded_registered self Hseeded) as [Hreg Hnd].
  rewrite load_saved by done. rewrite rebuild_of_registered; [done | apply Hseeded | done].
Qed.

(** X28. On a new tracker, [initialize_warehouse_lineage] registers the
    fifteen warehouse keys in its order and logs nine transformations, all
    between registered keys; so the rebuild reproduces the maps and the saved
    document restores the tracker.  On any tracker it leaves every warehouse
    key registered with an entry in both maps and appends its nine
    transformations to the log. *)
Theorem seeded_warehouse :
  let w := initialize_warehouse_lineage clock empty_tracker in
  (assets w).*1 = warehouse_keys ∧
  length (transformations w) = 9 ∧
  endpoints_registered w ∧
  _rebuild_dependency_graphs w = (Returned tt, w) ∧
  (∀ now, new_tracker (Document (save_lineage now w)) = w) ∧
  (∀ self k, k ∈ warehouse_keys →
     k ∈ (assets (initialize_warehouse_lineage clock self)).*1 ∧
     is_Some (dependencies (initialize_warehouse_lineage clock self) !! k) ∧
     is_Some (downstream (initialize_warehouse_lineage clock self) !! k)) ∧
  (∀ self, length (transformations (initialize_warehouse_lineage clock self))
           = length (transformations self) + 9).
Proof.
  intros w. pose proof seeded_first as Hseeded. fold w in Hseeded.
  destruct (seeded_registered w Hseeded) as [Hreg Hnd]. split_and!.
  - apply Hseeded.
  - unfold w. by rewrite initialize_as_calls, do_calls_log, length_app, seed_added_length.
  - done.
  - apply rebuild_of_registered; [apply Hseeded | done].
  - intros now. by apply seeded_restored.
  - intros self k Hk. rewrite initialize_as_calls. rewrite <- seed_added_keys in Hk.
    apply list_elem_of_omap in Hk as (c & Hc & Hkey).
    destruct c as [asset|t]; [|done]. injection Hkey as <-.
    by apply do_calls_registers.
  - intros self. by rewrite initialize_as_calls, do_calls_log, length_app, seed_added_length.
Qed.

End Seeding.

Section MainRuns.
Context {order : SetIter}.
Variable clocks : nat → nat → string.

Lemma run_tracker_seeded n :
  seeded (main_tracker (clocks n) (file_after_runs clocks n)).
Proof.
  induction n as [|n IH]; unfold main_tracker; simpl file_after_runs.
  - apply seeded_first.
  - unfold main_saved. rewrite seeded_restored by exact IH. by apply seeded_next.
Qed.

Lemma run_tracker_step n :
  main_tracker (clocks (S n)) (file_after_runs clocks (S n))
  = initialize_warehouse_lineage (clocks (S n))
      (main_tracker (clocks n) (file_after_runs clocks n)).
Proof.
  unfold main_tracker at 1. simpl file_after_runs. unfold main_saved.
  by rewrite seeded_restored by apply run_tracker_seeded.
Qed.

Lemma seed_footprint (clock clock' : nat → string) :
  Forall2 same_footprint (seed_calls clock) (seed_calls clock').
Proof. repeat constructor. Qed.

Lemma reseeding_keeps_maps (clock clock' : nat → string) self :
  let seeded_once := initialize_warehouse_lineage clock self in
  dependencies (initialize_warehouse_lineage clock' seeded_once) = dependencies seeded_once ∧
  downstream (initialize_warehouse_lineage clock' seeded_once) = downstream seeded_once.
Proof.
  intros seeded_once. rewrite (initialize_as_calls clock' seeded_once).
  apply saturated_calls_keep_maps.
  apply (saturated_footprints _ _ _ (seed_footprint clock clock')).
  unfold seeded_once. rewrite initialize_as_calls. apply saturated_after_calls.
Qed.

Lemma run_maps n :
  dependencies (main_tracker (clocks n) (file_after_runs clocks n))
  = dependencies (initialize_warehouse_lineage (clocks 0) empty_tracker) ∧
  downstream (main_tracker (clocks n) (file_after_runs clocks n))
  = downstream (initialize_warehouse_lineage (clocks 0) empty_tracker).
Proof.
  induction n as [|n [IHd IHw]].
  { unfold main_tracker. simpl file_after_runs.
    change (new_tracker Absent) with empty_tracker. split; reflexivity. }
  rewrite run_tracker_step.
  destruct (reseeding_keeps_maps (clocks n) (clocks (S n))
              (new_tracker (file_after_runs clocks n))) as [Hd Hw].
  unfold main_tracker in *. rewrite Hd, Hw. split; assumption.
Qed.

Lemma run_log_length n :
  length (transformations (main_tracker (clocks n) (file_after_runs clocks n))) = 9 * S n.
Proof.
  induction n as [|n IH].
  - unfold main_tracker. simpl file_after_runs.
    change (new_tracker Absent) with empty_tracker.
    by rewrite initialize_as_calls, do_calls_log, length_app, seed_added_length.
  - rewrite run_tracker_step, initialize_as_calls, do_calls_log, length_app,
      seed_added_length, IH. lia.
Qed.

Lemma seed_main_records (clock : nat → string) :
  length (filter (λ t, "bronze.crm_cust_info" ∈ source_assets t)
            (added_transformations (seed_calls clock))) = 1.
Proof. by vm_compute. Qed.

Lemma run_main_records n :
  length (records_per_position
            (transformations (main_tracker (clocks n) (file_after_runs clocks n)))
            main_changed) = S n.
Proof.
  unfold records_per_position, main_changed. rewrite bind_singleton, bind_singleton_fmap.
  rewrite length_fmap. induction n as [|n IH].
  - unfold main_tracker. simpl file_after_runs.
    change (new_tracker Absent) with empty_tracker.
    rewrite initialize_as_calls, do_calls_log. simpl app. apply seed_main_records.
  - rewrite run_tracker_step, initialize_as_calls, do_calls_log, filter_app, length_app.
    by rewrite IH, seed_main_records, Nat.add_1_r.
Qed.

Lemma first_run_impact (clock : nat → string) :
  closure (order := elements_order)
    (depth_bound (downstream (initialize_warehouse_lineage clock empty_tracker)))
    (downstream (initialize_warehouse_lineage clock empty_tracker))
    "bronze.crm_cust_info" ∅
  = Some {["silver.crm_cust_info"; "gold.dim_customers"; "gold.fact_sales"]}.
Proof. apply (bool_decide_unpack _). vm_compute. exact I. Qed.

Lemma run_main_impact n :
  get_downstream_impact (main_tracker (clocks n) (file_after_runs clocks n))
    "bronze.crm_cust_info"
  = Some {["silver.crm_cust_info"; "gold.dim_customers"; "gold.fact_sales"]}.
Proof.
  unfold get_downstream_impact. destruct (run_maps n) as [_ ->].
  rewrite (closure_any_order order elements_order). apply first_run_impact.
Qed.

Lemma main_impact_size :
  size ({["silver.crm_cust_info"; "gold.dim_customers"; "gold.fact_sales"]} : gset string) = 3.
Proof. apply (bool_decide_unpack _). vm_compute. exact I. Qed.

Lemma main_impact_members (x : string) :
  x ∈ ({["silver.crm_cust_info"; "gold.dim_customers"; "gold.fact_sales"]} : gset string) ↔
  x ∈ ["silver.crm_cust_info"; "gold.dim_customers"; "gold.fact_sales"].
Proof.
  rewrite !elem_of_union, !elem_of_singleton, !elem_of_cons, elem_of_nil. tauto.
Qed.

(** X29. Every run of [main] loads the lineage file that the run before
    saved and seeds the warehouse again.  In run [n + 1] the registry and
    both maps are those of the first run, but the log holds [9 * (n + 1)]
    transformations; so the impact analysis of [bronze.crm_cust_info] that
    [main] prints always names the same three affected assets, counts
    [n + 1] affected transformations, and rates the same change [LOW] in the
    first two runs, [MEDIUM] from the third and [HIGH] from the sixth. *)
Theorem main_runs_accumulate :
  ∀ n : nat,
    let tracker := main_tracker (clocks n) (file_after_runs clocks n) in
    (assets tracker).*1 = warehouse_keys ∧
    length (transformations tracker) = 9 * S n ∧
    dependencies tracker
      = dependencies (initialize_warehouse_lineage (clocks 0) empty_tracker) ∧
    downstream tracker
      = downstream (initialize_warehouse_lineage (clocks 0) empty_tracker) ∧
    ∃ r, analyze_impact tracker main_changed = Some r ∧
         (∀ x, x ∈ affected_assets r ↔
               x ∈ ["silver.crm_cust_info"; "gold.dim_customers"; "gold.fact_sales"]) ∧
         length (affected_assets r) = 3 ∧
         length (affected_transformations r) = S n ∧
         ((S n ≤ 2 ∧ risk_level r = "LOW") ∨
          (3 ≤ S n ≤ 5 ∧ risk_level r = "MEDIUM") ∨
          (6 ≤ S n ∧ risk_level r = "HIGH")).
Proof.
  intros n tracker.
  destruct (run_tracker_seeded n) as (_ & Hkeys & _).
  destruct (run_maps n) as [Hdeps Hdown].
  split_and!; [exact Hkeys | apply run_log_length | exact Hdeps | exact Hdown|].
  clear Hkeys Hdeps Hdown.
  destruct (analyze_impact_result tracker main_changed)
      as (affected & r & Hr & Hx & _ & Ha & Hfound & Hrisk).
    assert (affected = {["silver.crm_cust_info"; "gold.dim_customers"; "gold.fact_sales"]})
      as ->.
    { apply set_eq. intros x. rewrite Hx. split.
      - intros (a & ra & Ha'%list_elem_of_singleton & Hra & Hin). subst a.
        unfold tracker in Hra. rewrite run_main_impact in Hra. by simplify_eq.
      - intros Hin. eexists "bronze.crm_cust_info", _.
        split_and!; [apply list_elem_of_here | apply run_main_impact | exact Hin]. }
    assert (length (affected_transformations r) = S n) as Hlen.
    { rewrite Hfound. apply run_main_records. }
    exists r. split_and!; [exact Hr | | | exact Hlen |].
    + intros x. rewrite Ha, elem_of_set_iter. apply main_impact_members.
    + rewrite Ha, length_set_iter. apply main_impact_size.
    + rewrite Hrisk, Hlen, main_impact_size.
      simpl (10 <? 3). simpl (5 <? 3). rewrite !orb_false_l.
      destruct (5 <? S n) eqn:Hhigh; [|destruct (2 <? S n) eqn:Hmed].
      * apply Nat.ltb_lt in Hhigh. right; right. split; [lia | done].
      * apply Nat.ltb_ge in Hhigh. apply Nat.ltb_lt in Hmed. right; left. split; [lia | done].
      * apply Nat.ltb_ge in Hmed. left. split; [lia | done].
Qed.

End MainRuns.
